(** * compression-stream-polyfill: a shallow embedding of [src/index.ts]

    The module adapts the zlib transforms of [node:zlib] to the
    [{readable, writable}] shape of the Compression Streams API and
    installs the two adapter classes on [globalThis] when the host has
    none.  The embedding follows the source top to bottom: JavaScript
    values and the three built-in operations the source applies to the
    [format] argument ([typeof], [in], [String]), the two factory tables,
    [isValidFormat], the two constructors over an explicit heap, and the
    registration code that runs when the module is loaded. *)

From Stdlib Require Import ZArith.
From stdpp Require Import base strings list gmap pretty.

Open Scope string_scope.

(** ** Exceptions and completions *)

Inductive error_class := Error | TypeError | RangeError | SyntaxError | ReferenceError.

Record exception := Exception { exn_class : error_class; exn_message : string }.

(** The outcome of evaluating an expression: a value, or a thrown exception. *)
Inductive completion (A : Type) :=
| Normal (a : A)
| Throw (e : exception).
Arguments Normal {A} a.
Arguments Throw {A} e.

(** ** Values

    [format] is typed [CompressionFormat] in the source, but the guard is
    written for [unknown] input (callers cast with [as any]), so the
    argument ranges over every JavaScript value.

    - [VNumber n] is an integer-valued Number inside the safe range, where
      [String(n)] is the decimal numeral.
    - [VObject callable conversion] stands for any object coming from the
      caller (plain objects, arrays, functions, proxies...).  The source
      only ever asks its [typeof] and applies [String] to it, so the object
      is represented by what these two observe: whether it is callable, and
      the outcome of converting it to a string, which runs the object's own
      [Symbol.toPrimitive] / [toString] / [valueOf] and therefore yields a
      string or throws.
    - The remaining constructors are the objects this module itself
      creates or obtains: the zlib transform returned by a factory, the web
      streams returned by [Readable.toWeb] and [Writable.toWeb] (named by
      their index in the heap), an instance of one of the two classes, and
      the two classes themselves. *)

Inductive adapter_class := Compression | Decompression.

Inductive value :=
| VUndefined
| VNull
| VBool (b : bool)
| VNumber (n : Z)
| VBigInt (n : Z)
| VString (s : string)
| VSymbol (description : string)
| VObject (callable : bool) (conversion : completion string)
| VTransform (t : nat)
| VReadableStream (r : nat)
| VWritableStream (w : nat)
| VInstance (i : nat)
| VClass (c : adapter_class).

#[global] Instance error_class_eq_dec : EqDecision error_class.
Proof. solve_decision. Defined.
#[global] Instance exception_eq_dec : EqDecision exception.
Proof. solve_decision. Defined.
#[global] Instance completion_eq_dec `{EqDecision A} : EqDecision (completion A).
Proof. solve_decision. Defined.
#[global] Instance adapter_class_eq_dec : EqDecision adapter_class.
Proof. solve_decision. Defined.
#[global] Instance value_eq_dec : EqDecision value.
Proof. solve_decision. Defined.

(** The [typeof] operator. *)
Definition typeof (v : value) : string :=
  match v with
  | VUndefined => "undefined"
  | VNull => "object"
  | VBool _ => "boolean"
  | VNumber _ => "number"
  | VBigInt _ => "bigint"
  | VString _ => "string"
  | VSymbol _ => "symbol"
  | VObject callable _ => if callable then "function" else "object"
  | VTransform _ | VReadableStream _ | VWritableStream _ | VInstance _ => "object"
  | VClass _ => "function"
  end.

Definition class_name (c : adapter_class) : string :=
  match c with
  | Compression => "CompressionStreamPolyfill"
  | Decompression => "DecompressionStreamPolyfill"
  end.

(** [String(v)], the explicit conversion the source uses inside the error
    message.  It renders every primitive, symbols included (unlike an
    implicit conversion); only the conversion of an object can throw.
    The text of a class is abbreviated to its header. *)
Definition String_ (v : value) : completion string :=
  match v with
  | VUndefined => Normal "undefined"
  | VNull => Normal "null"
  | VBool b => Normal (if b then "true" else "false")
  | VNumber n => Normal (pretty n)
  | VBigInt n => Normal (pretty n)
  | VString s => Normal s
  | VSymbol description => Normal ("Symbol(" +:+ description +:+ ")")
  | VObject _ conversion => conversion
  | VTransform _ | VInstance _ => Normal "[object Object]"
  | VReadableStream _ => Normal "[object ReadableStream]"
  | VWritableStream _ => Normal "[object WritableStream]"
  | VClass c => Normal ("class " +:+ class_name c)
  end.

(** ** Objects used as lookup tables

    [COMPRESSION_FORMATS] and [DECOMPRESSION_FORMATS] are object literals:
    three own properties each, and [Object.prototype] as prototype. *)

Inductive zlib_kind := Deflate | DeflateRaw | Gzip | Inflate | InflateRaw | Gunzip.

#[global] Instance zlib_kind_eq_dec : EqDecision zlib_kind.
Proof. solve_decision. Defined.

(** What a property of such a table holds. *)
Inductive member :=
| Factory (k : zlib_kind)      (* zlib.createDeflate, zlib.createInflate, ... *)
| Builtin (name : string)      (* a function-valued member of Object.prototype *)
| ProtoAccessor.               (* the __proto__ accessor of Object.prototype *)

#[warnings="-register-all"]
Inductive js_object :=
| JsObject (own : list (string * member)) (proto : option js_object).

Definition own_properties (o : js_object) : list (string * member) :=
  match o with JsObject own _ => own end.

(** The standard members of [Object.prototype] (ECMAScript 20.1.3 and B.2.2). *)
Definition Object_prototype : js_object :=
  JsObject
    [ ("constructor", Builtin "constructor");
      ("__defineGetter__", Builtin "__defineGetter__");
      ("__defineSetter__", Builtin "__defineSetter__");
      ("hasOwnProperty", Builtin "hasOwnProperty");
      ("__lookupGetter__", Builtin "__lookupGetter__");
      ("__lookupSetter__", Builtin "__lookupSetter__");
      ("isPrototypeOf", Builtin "isPrototypeOf");
      ("propertyIsEnumerable", Builtin "propertyIsEnumerable");
      ("toString", Builtin "toString");
      ("valueOf", Builtin "valueOf");
      ("__proto__", ProtoAccessor);
      ("toLocaleString", Builtin "toLocaleString") ]
    None.

Definition COMPRESSION_FORMATS : js_object :=
  JsObject
    [ ("deflate", Factory Deflate);
      ("deflate-raw", Factory DeflateRaw);
      ("gzip", Factory Gzip) ]
    (Some Object_prototype).

Definition DECOMPRESSION_FORMATS : js_object :=
  JsObject
    [ ("deflate", Factory Inflate);
      ("deflate-raw", Factory InflateRaw);
      ("gzip", Factory Gunzip) ]
    (Some Object_prototype).

(** The type [CompressionFormat = "deflate" | "deflate-raw" | "gzip"]. *)
Definition CompressionFormat : list string := ["deflate"; "deflate-raw"; "gzip"].

(** The first own property stored under [key], if any. *)
Fixpoint assoc {A} (key : string) (l : list (string * A)) : option A :=
  match l with
  | [] => None
  | (k, a) :: l' => if decide (k = key) then Some a else assoc key l'
  end.

(** [key in o]: the property is looked up on [o] and then along its
    prototype chain. *)
Fixpoint HasProperty (o : js_object) (key : string) : bool :=
  match o with
  | JsObject own proto =>
      match assoc key own with
      | Some _ => true
      | None => match proto with
                | Some p => HasProperty p key
                | None => false
                end
      end
  end.

(** [o[key]]: the same walk, returning what is found ([None] is [undefined]). *)
Fixpoint Get (o : js_object) (key : string) : option member :=
  match o with
  | JsObject own proto =>
      match assoc key own with
      | Some m => Some m
      | None => match proto with
                | Some p => Get p key
                | None => None
                end
      end
  end.

(** [Object.hasOwn(o, key)] / [hasOwnProperty]: own properties only. *)
Definition HasOwnProperty (o : js_object) (key : string) : bool :=
  bool_decide (is_Some (assoc key (own_properties o))).

(** ** Format validation

    [typeof format === "string" && format in COMPRESSION_FORMATS].  The
    [&&] evaluates [in] only when [format] is a string, and then the
    property key is that string. *)
Definition isValidFormat (format : value) : bool :=
  if bool_decide (typeof format = "string") then
    match format with
    | VString key => HasProperty COMPRESSION_FORMATS key
    | _ => false
    end
  else false.

(** ** The heap

    What the constructors allocate: native zlib transforms, the web
    streams bridged onto them, and class instances.  Objects are named by
    their index; an index is never reused, so it is the object's identity.
    An instance enters the heap when its constructor completes: the [this]
    of a constructor that throws is never reachable. *)

Record transform := Transform {
  t_kind : zlib_kind;              (* which zlib.create* made it *)
  t_input : list Byte.byte;        (* bytes written so far, in write order *)
  t_ended : bool                   (* end of input was signalled *)
}.

Record heap := Heap {
  transforms : list transform;
  readables : list nat;            (* ReadableStream r reads from transform (readables !! r) *)
  writables : list nat;            (* WritableStream w feeds transform (writables !! w) *)
  instances : list (list (string * value))   (* own properties, in creation order *)
}.

Definition empty_heap : heap := Heap [] [] [] [].

(** Computations that read and extend the heap and may throw. *)
Definition M (A : Type) : Type := heap → completion A * heap.

#[global] Instance M_ret : MRet M := λ A a h, (Normal a, h).
#[global] Instance M_bind : MBind M := λ A B k m h,
  match m h with
  | (Normal a, h') => k a h'
  | (Throw e, h') => (Throw e, h')
  end.

Definition throw {A} (e : exception) : M A := λ h, (Throw e, h).
Definition lift {A} (c : completion A) : M A := λ h, (c, h).

(** ** The external collaborators

    [node:zlib] and [node:stream] are not part of the repository; they are
    modelled by what their documentation says of the calls the source
    makes.  Error messages of the runtime are abbreviated. *)

(** [zlib.createDeflate()] and its five siblings: a fresh transform with
    no input yet. *)
Definition zlib_create (k : zlib_kind) : M value := λ h,
  (Normal (VTransform (length (transforms h))),
   Heap (transforms h ++ [Transform k [] false]) (readables h) (writables h) (instances h)).

Definition ERR_INVALID_ARG_TYPE : exception :=
  Exception TypeError "ERR_INVALID_ARG_TYPE: the argument must be an instance of stream".

(** [Readable.toWeb(x)]: a new [ReadableStream] over the node stream [x];
    anything that is not a stream is refused. *)
Definition Readable_toWeb (x : value) : M value := λ h,
  match x with
  | VTransform t =>
      (Normal (VReadableStream (length (readables h))),
       Heap (transforms h) (readables h ++ [t]) (writables h) (instances h))
  | _ => (Throw ERR_INVALID_ARG_TYPE, h)
  end.

(** [Writable.toWeb(x)]: a new [WritableStream] over the node stream [x]. *)
Definition Writable_toWeb (x : value) : M value := λ h,
  match x with
  | VTransform t =>
      (Normal (VWritableStream (length (writables h))),
       Heap (transforms h) (readables h) (writables h ++ [t]) (instances h))
  | _ => (Throw ERR_INVALID_ARG_TYPE, h)
  end.

(** What [new C(...)] hands back once the constructor body has completed:
    the instance with the properties the body assigned to [this]. *)
Definition new_instance (properties : list (string * value)) : M value := λ h,
  (Normal (VInstance (length (instances h))),
   Heap (transforms h) (readables h) (writables h) (instances h ++ [properties])).

Definition not_a_function : exception :=
  Exception TypeError "not a function".
Definition not_a_getter : exception :=
  Exception TypeError "property accessor must be a function".

(** A plain object as [String] sees it. *)
Definition plain_object : value := VObject false (Normal "[object Object]").

(** Calling a function-valued member of [Object.prototype] as a method of
    one of the tables, with no argument (ECMAScript 20.1.3, B.2.2). *)
Definition Object_prototype_call (name : string) : completion value :=
  if decide (name = "constructor") then Normal plain_object               (* Object() *)
  else if decide (name = "toString") then Normal (VString "[object Object]")
  else if decide (name = "toLocaleString") then Normal (VString "[object Object]")
  else if decide (name = "valueOf") then Normal plain_object              (* the table itself *)
  else if decide (name = "hasOwnProperty") then Normal (VBool false)
  else if decide (name = "isPrototypeOf") then Normal (VBool false)
  else if decide (name = "propertyIsEnumerable") then Normal (VBool false)
  else if decide (name = "__lookupGetter__") then Normal VUndefined
  else if decide (name = "__lookupSetter__") then Normal VUndefined
  else Throw not_a_getter.                      (* __defineGetter__, __defineSetter__ *)

(** [table[format]()]: fetch the property and call it.  The constructors
    reach this only behind [isValidFormat], where [format] is a string. *)
Definition call_entry (table : js_object) (format : value) : M value :=
  match format with
  | VString key =>
      match Get table key with
      | Some (Factory k) => zlib_create k
      | Some (Builtin name) => lift (Object_prototype_call name)
      | Some ProtoAccessor => throw not_a_function    (* Object.prototype, an object *)
      | None => throw not_a_function                  (* undefined *)
      end
  | _ => throw not_a_function
  end.

(** ** The two classes *)

Definition invalid_format_message (rendering : string) : string :=
  "Invalid compression format '" +:+ rendering +:+ "'. " +:+
  "Use: deflate, deflate-raw, or gzip".

(** The error the spec calls [InvalidFormat]. *)
Definition InvalidFormat (rendering : string) : exception :=
  Exception TypeError (invalid_format_message rendering).

Definition CompressionStreamPolyfill (format : value) : M value :=
  if negb (isValidFormat format) then
    rendering ← lift (String_ format);
    throw (Exception TypeError
             ("Invalid compression format '" +:+ rendering +:+ "'. " +:+
              "Use: deflate, deflate-raw, or gzip"))
  else
    transform ← call_entry COMPRESSION_FORMATS format;
    readable ← Readable_toWeb transform;
    writable ← Writable_toWeb transform;
    new_instance [("readable", readable); ("writable", writable)].

Definition DecompressionStreamPolyfill (format : value) : M value :=
  if negb (isValidFormat format) then
    rendering ← lift (String_ format);
    throw (Exception TypeError
             ("Invalid compression format '" +:+ rendering +:+ "'. " +:+
              "Use: deflate, deflate-raw, or gzip"))
  else
    transform ← call_entry DECOMPRESSION_FORMATS format;
    readable ← Readable_toWeb transform;
    writable ← Writable_toWeb transform;
    new_instance [("readable", readable); ("writable", writable)].

Definition construct (c : adapter_class) : value → M value :=
  match c with
  | Compression => CompressionStreamPolyfill
  | Decompression => DecompressionStreamPolyfill
  end.

(** ** Using an adapter: the stream side

    After construction no code of the module runs; data flows through the
    bridged streams into the native transform.  The operations below are
    those of the stream interface that the module's test-suite exercises
    ([getWriter().write], [close], [pipeThrough], the [read] loop). *)

(** The codec provider: what a transform of each kind emits, in total,
    for the input it was fed before end of input; a decoder throws on
    input that is not a valid stream of its format. *)
Record codec := Codec {
  zlib_run : zlib_kind → list Byte.byte → completion (list Byte.byte)
}.

Definition ERR_INVALID_STATE : exception :=
  Exception TypeError "ERR_INVALID_STATE: the stream is closed".

Definition set_transform (t : nat) (tr : transform) (h : heap) : heap :=
  Heap (<[t := tr]> (transforms h)) (readables h) (writables h) (instances h).

(** [o.name] on an instance. *)
Definition get_property (o : value) (name : string) : M value := λ h,
  match o with
  | VInstance i =>
      (Normal (default VUndefined (instances h !! i ≫= assoc name)), h)
  | VUndefined | VNull =>
      (Throw (Exception TypeError "cannot read properties of undefined or null"), h)
  | _ => (Normal VUndefined, h)
  end.

(** The transform behind a writable stream, if [w] is one. *)
Definition sink (w : value) (h : heap) : option (nat * transform) :=
  match w with
  | VWritableStream i =>
      t ← writables h !! i; tr ← transforms h !! t; Some (t, tr)
  | _ => None
  end.

(** The transform behind a readable stream, if [r] is one. *)
Definition source (r : value) (h : heap) : option transform :=
  match r with
  | VReadableStream i => t ← readables h !! i; transforms h !! t
  | _ => None
  end.

(** [w.getWriter().write(chunk)]: the chunk is appended to the input of
    the transform; writing after close is a stream-state error. *)
Definition writable_write (w : value) (chunk : list Byte.byte) : M unit := λ h,
  match sink w h with
  | Some (t, tr) =>
      if t_ended tr then (Throw ERR_INVALID_STATE, h)
      else (Normal (), set_transform t (Transform (t_kind tr) (t_input tr ++ chunk) false) h)
  | None => (Throw not_a_function, h)
  end.

(** [w.getWriter().close()], and the close at the end of a pipe: the
    end-of-input signal reaches the transform.  Only this effect on the
    heap is represented; whether the promise that [close()] returns later
    resolves or rejects (it rejects when the decoder fails on the bytes
    written) is not, the failure being reported by [read_all]. *)
Definition writable_close (w : value) : M unit := λ h,
  match sink w h with
  | Some (t, tr) =>
      if t_ended tr then (Throw ERR_INVALID_STATE, h)
      else (Normal (), set_transform t (Transform (t_kind tr) (t_input tr) true) h)
  | None => (Throw not_a_function, h)
  end.

Fixpoint write_all (w : value) (chunks : list (list Byte.byte)) : M unit :=
  match chunks with
  | [] => mret ()
  | chunk :: rest => _ ← writable_write w chunk; write_all w rest
  end.

(** [input.pipeThrough(adapter)]: every chunk of [input] is written to
    [adapter.writable], which is then closed; the result is
    [adapter.readable]. *)
Definition pipeThrough (input : list (list Byte.byte)) (adapter : value) : M value :=
  writable ← get_property adapter "writable";
  _ ← write_all writable input;
  _ ← writable_close writable;
  get_property adapter "readable".

(** The [while (true) { read() ... }] loop of the tests followed by the
    concatenation of the chunks: [Some] of all the bytes the stream emits
    once it has ended, a throw when the stream errors, [None] while the
    end of input has not been signalled (the loop is still waiting).  A
    failed read is represented by the decoder's own exception; at run time
    the bridge hands it over wrapped, as the cause of a TypeError. *)
Definition read_all (zlib : codec) (r : value) : M (option (list Byte.byte)) := λ h,
  match source r h with
  | Some tr =>
      if t_ended tr then
        match zlib_run zlib (t_kind tr) (t_input tr) with
        | Normal out => (Normal (Some out), h)
        | Throw e => (Throw e, h)
        end
      else (Normal None, h)
  | None => (Throw not_a_function, h)
  end.

(** The helpers [compress] and [decompress] of the test-suite. *)
Definition compress (zlib : codec) (data : list Byte.byte) (format : value)
  : M (option (list Byte.byte)) :=
  adapter ← CompressionStreamPolyfill format;
  compressed ← pipeThrough [data] adapter;
  read_all zlib compressed.

Definition decompress (zlib : codec) (data : list Byte.byte) (format : value)
  : M (option (list Byte.byte)) :=
  adapter ← DecompressionStreamPolyfill format;
  decompressed ← pipeThrough [data] adapter;
  read_all zlib decompressed.

(** [decompress(await compress(data, format), format)]. *)
Definition round_trip (zlib : codec) (data : list Byte.byte) (format : value)
  : M (option (list Byte.byte)) :=
  compressed ← compress zlib data format;
  match compressed with
  | Some bytes => decompress zlib bytes format
  | None => mret None
  end.

(** What a program does with the module and its streams: construct
    further adapters (with any argument), write to a stream, close a
    stream. *)
Inductive operation :=
| OpConstruct (c : adapter_class) (format : value)
| OpWrite (w : value) (chunk : list Byte.byte)
| OpClose (w : value).

Definition run_operation (op : operation) (h : heap) : heap :=
  match op with
  | OpConstruct c format => (construct c format h).2
  | OpWrite w chunk => (writable_write w chunk h).2
  | OpClose w => (writable_close w h).2
  end.

Definition run_operations (ops : list operation) (h : heap) : heap :=
  foldl (λ h op, run_operation op h) h ops.

(** [o.name = v] at run time.  The constructors store [readable] and
    [writable] with plain assignments to [this], so they are ordinary own
    data properties, writable and configurable: [public readonly] is
    checked by the TypeScript compiler and erased from the emitted code.
    Assigning replaces the value of an own property, or adds the property
    when the instance has none of that name.  Properties of objects other
    than instances are not tracked; the module is strict code, where
    assigning to a property of a primitive throws. *)
Fixpoint assign {A} (key : string) (a : A) (l : list (string * A)) : list (string * A) :=
  match l with
  | [] => [(key, a)]
  | (k, b) :: l' =>
      if decide (k = key) then (k, a) :: l' else (k, b) :: assign key a l'
  end.

Definition set_property (o : value) (name : string) (v : value) : M unit := λ h,
  match o with
  | VInstance i =>
      match instances h !! i with
      | Some properties =>
          (Normal (),
           Heap (transforms h) (readables h) (writables h)
                (<[i := assign name v properties]> (instances h)))
      | None => (Normal (), h)
      end
  | VUndefined | VNull =>
      (Throw (Exception TypeError "cannot set properties of undefined or null"), h)
  | VBool _ | VNumber _ | VBigInt _ | VString _ | VSymbol _ =>
      (Throw (Exception TypeError "cannot create property on a primitive"), h)
  | _ => (Normal (), h)
  end.

(** What client code can do at run time: the operations above, and
    assignments to properties. *)
Inductive step :=
| StepOperation (op : operation)
| StepAssign (o : value) (name : string) (v : value).

Definition run_step (s : step) (h : heap) : heap :=
  match s with
  | StepOperation op => run_operation op h
  | StepAssign o name v => (set_property o name v h).2
  end.

Definition run_steps (steps : list step) (h : heap) : heap :=
  foldl (λ h s, run_step s h) h steps.

(** ** Registration on [globalThis] when the module is loaded *)

Record property := Property {
  p_value : value;
  p_writable : bool;
  p_enumerable : bool;
  p_configurable : bool
}.

#[global] Instance property_eq_dec : EqDecision property.
Proof. solve_decision. Defined.

#[global] Instance completion_ret : MRet completion := λ A a, Normal a.
#[global] Instance completion_bind : MBind completion := λ A B k c,
  match c with
  | Normal a => k a
  | Throw e => Throw e
  end.

(** [globalThis.name]: the value of the data property, [undefined] when
    there is none. *)
Definition global_get (g : gmap string property) (name : string) : value :=
  from_option p_value VUndefined (g !! name).

Definition cannot_redefine : exception :=
  Exception TypeError "cannot redefine property".

(** [Object.defineProperty(globalThis, name, desc)] for a complete data
    descriptor (ECMAScript 10.1.6.3): a missing or configurable property
    takes the descriptor; a non-configurable one only accepts what its
    attributes permit, and the call throws otherwise. *)
Definition defineProperty (g : gmap string property) (name : string) (desc : property)
  : completion (gmap string property) :=
  match g !! name with
  | None => Normal (<[name := desc]> g)
  | Some current =>
      if p_configurable current then Normal (<[name := desc]> g)
      else if p_configurable desc then Throw cannot_redefine
      else if negb (bool_decide (p_enumerable desc = p_enumerable current)) then Throw cannot_redefine
      else if p_writable current then Normal (<[name := desc]> g)
      else if p_writable desc then Throw cannot_redefine
      else if bool_decide (p_value desc = p_value current) then Normal g
      else Throw cannot_redefine
  end.

(** The top-level statements of the module, lines 64 to 80. *)
Definition module_load (globalThis : gmap string property)
  : completion (gmap string property) :=
  globalThis ←
    (if bool_decide (typeof (global_get globalThis "CompressionStream") = "undefined") then
       defineProperty globalThis "CompressionStream"
         {| p_value := VClass Compression;
            p_writable := true;
            p_enumerable := false;
            p_configurable := true |}
     else Normal globalThis);
  if bool_decide (typeof (global_get globalThis "DecompressionStream") = "undefined") then
    defineProperty globalThis "DecompressionStream"
      {| p_value := VClass Decompression;
         p_writable := true;
         p_enumerable := false;
         p_configurable := true |}
  else Normal globalThis.

(** ** Vocabulary of the statements *)

(** Every name under which [in] finds a property: own names first, then
    those of the prototype chain. *)
Fixpoint property_names (o : js_object) : list string :=
  match o with
  | JsObject own proto =>
      own.*1 ++ match proto with
                | Some p => property_names p
                | None => []
                end
  end.

(** The table a class takes its factory from. *)
Definition table_of (c : adapter_class) : js_object :=
  match c with
  | Compression => COMPRESSION_FORMATS
  | Decompression => DECOMPRESSION_FORMATS
  end.

(** The outcome of either constructor on a value the guard rejects. *)
Definition rejection (format : value) : completion value :=
  match String_ format with
  | Normal rendering => Throw (InvalidFormat rendering)
  | Throw e => Throw e
  end.

(** [h'] has everything [h] has, under the same indices. *)
Definition extends (h h' : heap) : Prop :=
  instances h `prefix_of` instances h' ∧
  readables h `prefix_of` readables h' ∧
  writables h `prefix_of` writables h' ∧
  (length (transforms h) ≤ length (transforms h'))%nat.

Definition grows {A} (m : M A) : Prop := ∀ h, extends h (m h).2.

(** [a] is an instance whose two properties are streams bridged onto one
    transform of kind [k] that has received [input]. *)
Definition adapter_over (h : heap) (a : value) (r w t : nat) : Prop :=
  ∃ i, a = VInstance i ∧
    instances h !! i =
      Some [("readable", VReadableStream r); ("writable", VWritableStream w)] ∧
    readables h !! r = Some t ∧
    writables h !! w = Some t.


Definition installed (c : adapter_class) : property :=
  {| p_value := VClass c; p_writable := true; p_enumerable := false; p_configurable := true |}.

(** One of the two guarded [Object.defineProperty] statements. *)
Definition register (name : string) (c : adapter_class) (g : gmap string property)
  : completion (gmap string property) :=
  if bool_decide (typeof (global_get g name) = "undefined") then
    defineProperty g name (installed c)
  else Normal g.


(** A host that ships a native [DecompressionStream] and no
    [CompressionStream]. *)
Definition native_DecompressionStream : property :=
  {| p_value := VObject true (Normal "function DecompressionStream() { [native code] }");
     p_writable := true; p_enumerable := false; p_configurable := true |}.

Definition half_native_host : gmap string property :=
  {[ "DecompressionStream" := native_DecompressionStream ]}.

(** A host in which [CompressionStream] was pinned to [undefined] as a
    non-configurable property. *)
Definition pinned_host : gmap string property :=
  {[ "CompressionStream" :=
       {| p_value := VUndefined; p_writable := false;
          p_enumerable := false; p_configurable := false |} ]}.

(** [bytes] lifted to what the read loop reports. *)
Definition emitted (c : completion (list Byte.byte)) : completion (option (list Byte.byte)) :=
  match c with
  | Normal out => Normal (Some out)
  | Throw e => Throw e
  end.

(** A decoder [dec] undoes an encoder [enc] of the provider. *)
Definition inverts (zlib : codec) (dec enc : zlib_kind) : Prop :=
  ∀ data, ∃ encoded,
    zlib_run zlib enc data = Normal encoded ∧ zlib_run zlib dec encoded = Normal data.

(** [{ toString() { throw new Error("unprintable") } }]. *)
Definition unprintable_object : value :=
  VObject false (Throw (Exception Error "unprintable")).

(** [{ toString() { throw new RangeError("boom") } }]. *)
Definition throwing_object : value :=
  VObject false (Throw (Exception RangeError "boom")).

(** A provider that frames its input without compressing it: a two-byte
    header for the zlib and gzip containers, none for raw deflate.  The
    decoders refuse input that lacks the header of their format. *)
Definition stored_codec : codec :=
  Codec (λ k data,
    match k with
    | Deflate => Normal (Byte.x78 :: Byte.x9c :: data)
    | DeflateRaw => Normal data
    | Gzip => Normal (Byte.x1f :: Byte.x8b :: data)
    | Inflate =>
        match data with
        | Byte.x78 :: Byte.x9c :: payload => Normal payload
        | _ => Throw (Exception Error "incorrect header check")
        end
    | InflateRaw => Normal data
    | Gunzip =>
        match data with
        | Byte.x1f :: Byte.x8b :: payload => Normal payload
        | _ => Throw (Exception Error "incorrect header check")
        end
    end).

(** ** The tail of the test helpers: joining the chunks read

    [compress], [decompress] and the two multiple-write tests end alike:
    the chunks collected by the read loop are copied, one after the other,
    into a [Uint8Array] whose size is the sum of their lengths. *)

(** [new Uint8Array(length)]: zero-filled. *)
Definition Uint8Array_new (length : nat) : list Byte.byte :=
  replicate length Byte.x00.

Definition ERR_OFFSET_OUT_OF_BOUNDS : exception :=
  Exception RangeError "offset is out of bounds".

(** [target.set(source, offset)]: the bytes of [source] overwrite those of
    [target] from [offset] on; a source that does not fit is a RangeError. *)
Definition Uint8Array_set (target source : list Byte.byte) (offset : nat)
  : completion (list Byte.byte) :=
  if decide (offset + length source ≤ length target)%nat
  then Normal (list_inserts offset source target)
  else Throw ERR_OFFSET_OUT_OF_BOUNDS.

(** [chunks.reduce((sum, c) => sum + c.length, 0)]. *)
Definition total_length (chunks : list (list Byte.byte)) : nat :=
  foldl (λ sum c, sum + length c)%nat 0%nat chunks.

(** [for (const chunk of chunks) { result.set(chunk, pos); pos += chunk.length }]. *)
Fixpoint copy_chunks (chunks : list (list Byte.byte)) (result : list Byte.byte) (pos : nat)
  : completion (list Byte.byte) :=
  match chunks with
  | [] => Normal result
  | chunk :: rest =>
      result ← Uint8Array_set result chunk pos;
      copy_chunks rest result (pos + length chunk)%nat
  end.

Definition join_chunks (chunks : list (list Byte.byte)) : completion (list Byte.byte) :=
  let total := total_length chunks in
  let result := Uint8Array_new total in
  copy_chunks chunks result 0.

(** ** Further vocabulary *)

(** [h'] keeps every object of [h] as it is, under the same index. *)
Definition preserved (h h' : heap) : Prop :=
  transforms h `prefix_of` transforms h' ∧
  readables h `prefix_of` readables h' ∧
  writables h `prefix_of` writables h' ∧
  instances h `prefix_of` instances h'.

Definition preserves {A} (m : M A) : Prop := ∀ h, preserved h (m h).2.

(** [h'] is [h] except, possibly, for the state of transform [t]. *)
Definition same_but (t : nat) (h h' : heap) : Prop :=
  instances h' = instances h ∧
  readables h' = readables h ∧
  writables h' = writables h ∧
  length (transforms h') = length (transforms h) ∧
  ∀ t', t' ≠ t → transforms h' !! t' = transforms h !! t'.

(** * Properties *)

Example isValidFormat_gzip : isValidFormat (VString "gzip") = true.
Proof. reflexivity. Qed.
Example isValidFormat_bad : isValidFormat (VString "bad") = false.
Proof. reflexivity. Qed.
Example isValidFormat_123 : isValidFormat (VNumber 123) = false.
Proof. reflexivity. Qed.
Example isValidFormat_GZIP : isValidFormat (VString "GZIP") = false.
Proof. reflexivity. Qed.

(** ** The validator *)

Lemma typeof_string v : typeof v = "string" ↔ ∃ s, v = VString s.
Proof.
  split; [|by intros [s ->]].
  destruct v as [| | | | |s| |[]| | | | |]; simpl; try discriminate; eauto.
Qed.

Lemma assoc_is_Some {A} key (l : list (string * A)) :
  is_Some (assoc key l) ↔ key ∈ l.*1.
Proof.
  induction l as [|[k a] l IH]; simpl.
  - split; [by intros [? ?] | by intros ?%elem_of_nil].
  - rewrite elem_of_cons. case_decide as Hk.
    + split; [by left | by eauto].
    + rewrite IH. split; [by right | by intros [->|?]].
Qed.

Lemma assoc_None {A} key (l : list (string * A)) :
  assoc key l = None ↔ key ∉ l.*1.
Proof. rewrite <-assoc_is_Some, eq_None_not_Some. done. Qed.

Lemma HasProperty_names o key :
  HasProperty o key = true ↔ key ∈ property_names o.
Proof.
  revert o. fix IH 1. intros [own proto]. simpl.
  rewrite elem_of_app, <-assoc_is_Some.
  destruct (assoc key own) as [m|] eqn:Hown.
  - split; [by left; eauto | done].
  - destruct proto as [p|].
    + rewrite (IH p). split; [by right | intros [[? ?]|?]; done].
    + split; [done | intros [[? ?]|?%elem_of_nil]; done].
Qed.

(** The validator accepts exactly the strings that name a property of
    [COMPRESSION_FORMATS], inherited ones included. *)
Lemma isValidFormat_true_iff format :
  isValidFormat format = true ↔
  ∃ key, format = VString key ∧ key ∈ property_names COMPRESSION_FORMATS.
Proof.
  unfold isValidFormat. case_bool_decide as Hty.
  - apply typeof_string in Hty as [s ->]. rewrite HasProperty_names.
    split; [by exists s | by intros (key & [= <-] & Hkey)].
  - split; [done | intros (key & -> & _); by destruct Hty].
Qed.

Lemma isValidFormat_not_string format :
  typeof format ≠ "string" → isValidFormat format = false.
Proof. intros Hty. unfold isValidFormat. by rewrite bool_decide_eq_false_2. Qed.

(** The own properties of the table are the three formats: a test on own
    properties is the membership test in [CompressionFormat]. *)
Lemma HasOwnProperty_COMPRESSION_FORMATS key :
  HasOwnProperty COMPRESSION_FORMATS key = true ↔ key ∈ CompressionFormat.
Proof.
  unfold HasOwnProperty. rewrite bool_decide_eq_true, assoc_is_Some. done.
Qed.

(** The three formats are accepted. *)
Lemma isValidFormat_CompressionFormat f :
  f ∈ CompressionFormat → isValidFormat (VString f) = true.
Proof.
  intros Hf. apply isValidFormat_true_iff. exists f. split; [done|].
  simpl. rewrite !elem_of_cons. unfold CompressionFormat in Hf.
  rewrite !elem_of_cons, elem_of_nil in Hf. tauto.
Qed.

(** A string that names no property of the table or of [Object.prototype]
    is rejected. *)
Lemma isValidFormat_other_string key :
  key ∉ CompressionFormat → key ∉ property_names Object_prototype →
  isValidFormat (VString key) = false.
Proof.
  intros Hf Hp. apply not_true_is_false. rewrite isValidFormat_true_iff.
  intros (key' & [= <-] & Hkey).
  change (property_names COMPRESSION_FORMATS)
    with (CompressionFormat ++ property_names Object_prototype)%list in Hkey.
  apply elem_of_app in Hkey as [?|?]; done.
Qed.

(** ** The constructors on a rejected value *)

Lemma construct_rejected c format h :
  isValidFormat format = false → construct c format h = (rejection format, h).
Proof.
  intros Hrej. unfold rejection.
  destruct c; simpl;
    unfold CompressionStreamPolyfill, DecompressionStreamPolyfill;
    rewrite Hrej; simpl; unfold mbind, M_bind, lift;
    by destruct (String_ format).
Qed.

Lemma CompressionStreamPolyfill_rejected format h :
  isValidFormat format = false →
  CompressionStreamPolyfill format h = (rejection format, h).
Proof. apply (construct_rejected Compression). Qed.

Lemma DecompressionStreamPolyfill_rejected format h :
  isValidFormat format = false →
  DecompressionStreamPolyfill format h = (rejection format, h).
Proof. apply (construct_rejected Decompression). Qed.

Lemma rejection_throws format : ∃ e, rejection format = Throw e.
Proof. unfold rejection. destruct (String_ format); eauto. Qed.

(** The message of the guard never starts like a runtime error code. *)
Lemma InvalidFormat_not_ERR_INVALID_ARG_TYPE rendering :
  ERR_INVALID_ARG_TYPE ≠ InvalidFormat rendering.
Proof. intros [=]. Qed.

(** ** The constructors on an accepted string *)

(** On the three own names of the tables, a transform is made and bridged. *)
Lemma construct_valid c f h :
  f ∈ CompressionFormat →
  ∃ k, Get (table_of c) f = Some (Factory k) ∧
    construct c (VString f) h =
      (Normal (VInstance (length (instances h))),
       Heap (transforms h ++ [Transform k [] false])
            (readables h ++ [length (transforms h)])
            (writables h ++ [length (transforms h)])
            (instances h ++ [[("readable", VReadableStream (length (readables h)));
                              ("writable", VWritableStream (length (writables h)))]])).
Proof.
  unfold CompressionFormat. rewrite !elem_of_cons, elem_of_nil.
  intros [->|[->|[->|[]]]]; destruct c; eexists; (split; [reflexivity|]); reflexivity.
Qed.

(** On a name inherited from [Object.prototype] the guard is passed, the
    inherited member is called in place of a factory, and the bridge (or
    the call itself) throws; nothing is allocated. *)
Lemma construct_inherited c key h :
  key ∈ property_names Object_prototype →
  ∃ e, construct c (VString key) h = (Throw e, h) ∧
       e ∈ [ERR_INVALID_ARG_TYPE; not_a_getter; not_a_function].
Proof.
  simpl. rewrite !elem_of_cons, elem_of_nil. intros Hkey.
  destruct_or!; try done; subst key; destruct c;
    eexists; (split; [reflexivity|]); rewrite !elem_of_cons; auto.
Qed.

(** Both constructors end the same way on every value. *)
Lemma constructors_same_outcome format h :
  (CompressionStreamPolyfill format h).1 = (DecompressionStreamPolyfill format h).1.
Proof.
  destruct (isValidFormat format) eqn:Hv.
  - apply isValidFormat_true_iff in Hv as (key & -> & Hkey).
    simpl in Hkey. rewrite !elem_of_cons, elem_of_nil in Hkey.
    destruct_or!; try done; subst key; reflexivity.
  - by rewrite CompressionStreamPolyfill_rejected, DecompressionStreamPolyfill_rejected.
Qed.

(** ** Claims about rejected values *)

(** C1 (the code departs from the claim).  The claim: every value other
    than the exact strings "deflate", "deflate-raw" and "gzip" makes both
    constructors fail with the InvalidFormat error, the validation being a
    membership test against that three-element set.  The code: [in] also
    finds the properties the table inherits from [Object.prototype], so
    the string "toString", which is not a [CompressionFormat], passes
    [isValidFormat], and neither constructor raises InvalidFormat for it. *)
Theorem isValidFormat_accepts_toString :
("toString" ∉ CompressionFormat) ∧
  HasOwnProperty COMPRESSION_FORMATS "toString" = false ∧
  isValidFormat (VString "toString") = true ∧
  ∀ h rendering,
    (CompressionStreamPolyfill (VString "toString") h).1 ≠ Throw (InvalidFormat rendering) ∧
    (DecompressionStreamPolyfill (VString "toString") h).1 ≠ Throw (InvalidFormat rendering).
Proof.
  split_and!; [| reflexivity | reflexivity |].
  - unfold CompressionFormat. rewrite !not_elem_of_cons. split_and!; [done..|].
    apply not_elem_of_nil.
  - intros h rendering; split; simpl; intros [=].
Qed.

(** C3.  When the guard rejects the format, both constructors throw with
    the heap exactly as it was: no transform was made by a zlib factory and
    no readable or writable stream was created before the throw. *)
Theorem rejected_format_allocates_nothing format h :
  isValidFormat format = false →
  ∃ e1 e2,
    CompressionStreamPolyfill format h = (Throw e1, h) ∧
    DecompressionStreamPolyfill format h = (Throw e2, h).
Proof.
  intros Hrej. destruct (rejection_throws format) as [e He].
  exists e, e.
  by rewrite CompressionStreamPolyfill_rejected, DecompressionStreamPolyfill_rejected, He.
Qed.

Lemma rejected_format_allocates_nothing_witness :
  isValidFormat (VNumber 123) = false ∧
  ∃ e1 e2,
    CompressionStreamPolyfill (VNumber 123) empty_heap = (Throw e1, empty_heap) ∧
    DecompressionStreamPolyfill (VNumber 123) empty_heap = (Throw e2, empty_heap).
Proof.
  split; [reflexivity|].
  apply (rejected_format_allocates_nothing (VNumber 123) empty_heap). reflexivity.
Defined.

(** C5.  The two constructors share one validation contract: on every
    value and heap they complete alike, so one throws a given error exactly
    when the other does (InvalidFormat in particular), and one accepts a
    value exactly when the other does. *)
Theorem constructors_share_validation format h :
  (∀ rendering,
     (CompressionStreamPolyfill format h).1 = Throw (InvalidFormat rendering) ↔
     (DecompressionStreamPolyfill format h).1 = Throw (InvalidFormat rendering)) ∧
  (∀ e,
     (CompressionStreamPolyfill format h).1 = Throw e ↔
     (DecompressionStreamPolyfill format h).1 = Throw e) ∧
  ((∃ a, (CompressionStreamPolyfill format h).1 = Normal a) ↔
   (∃ a, (DecompressionStreamPolyfill format h).1 = Normal a)).
Proof. by rewrite constructors_same_outcome. Qed.

(** C7 as stated fails: a rejected value need not get the InvalidFormat
    error at all.  An object whose [toString] throws is rejected, but
    rendering it for the message throws first, and that error, which names
    neither the value nor the accepted formats, is what the caller sees. *)
Lemma rejected_without_InvalidFormat :
  isValidFormat unprintable_object = false ∧
  (CompressionStreamPolyfill unprintable_object empty_heap).1 =
    Throw (Exception Error "unprintable") ∧
  (DecompressionStreamPolyfill unprintable_object empty_heap).1 =
    Throw (Exception Error "unprintable") ∧
  ¬ (∃ rendering,
      (CompressionStreamPolyfill unprintable_object empty_heap).1 =
        Throw (InvalidFormat rendering)) ∧
  ¬ (∃ rendering,
      (DecompressionStreamPolyfill unprintable_object empty_heap).1 =
        Throw (InvalidFormat rendering)).
Proof.
  split_and!; [reflexivity | reflexivity | reflexivity | |];
    intros [rendering [=]].
Qed.

(** C7 (amended).  For every rejected value whose conversion to a string
    completes, both constructors throw at once, allocating nothing, a
    TypeError whose message quotes that rendering and lists deflate,
    deflate-raw and gzip. *)
Theorem rejected_format_message format rendering h :
  isValidFormat format = false →
  String_ format = Normal rendering →
  let message :=
    "Invalid compression format '" +:+ rendering +:+
    "'. Use: deflate, deflate-raw, or gzip" in
  CompressionStreamPolyfill format h = (Throw (Exception TypeError message), h) ∧
  DecompressionStreamPolyfill format h = (Throw (Exception TypeError message), h).
Proof.
  intros Hrej Hs.
  rewrite CompressionStreamPolyfill_rejected, DecompressionStreamPolyfill_rejected by done.
  unfold rejection. rewrite Hs. done.
Qed.

Lemma rejected_format_message_witness :
  isValidFormat (VString "bad") = false ∧
  String_ (VString "bad") = Normal "bad" ∧
  CompressionStreamPolyfill (VString "bad") empty_heap =
    (Throw (Exception TypeError
              "Invalid compression format 'bad'. Use: deflate, deflate-raw, or gzip"),
     empty_heap) ∧
  DecompressionStreamPolyfill (VString "bad") empty_heap =
    (Throw (Exception TypeError
              "Invalid compression format 'bad'. Use: deflate, deflate-raw, or gzip"),
     empty_heap).
Proof.
  split; [reflexivity|]. split; [reflexivity|].
  apply (rejected_format_message (VString "bad") "bad" empty_heap); reflexivity.
Defined.

(** C9 as stated fails: the error a caller gets for a rejected value is
    not always a TypeError.  An object whose [toString] throws a RangeError
    is rejected, and the constructor lets that RangeError through. *)
Lemma rejected_with_RangeError :
  isValidFormat throwing_object = false ∧
  (CompressionStreamPolyfill throwing_object empty_heap).1 =
    Throw (Exception RangeError "boom") ∧
  (DecompressionStreamPolyfill throwing_object empty_heap).1 =
    Throw (Exception RangeError "boom") ∧
  exn_class (Exception RangeError "boom") ≠ TypeError.
Proof. split_and!; done. Qed.

(** C9 (amended).  For every value other than the three format strings
    whose conversion to a string completes (every primitive, the inherited
    names that pass the guard among them, and every object whose own
    conversion does not throw), the error both constructors throw is a
    TypeError. *)
Theorem invalid_format_TypeError format rendering h :
  format ∉ VString <$> CompressionFormat →
  String_ format = Normal rendering →
  ∃ e,
    CompressionStreamPolyfill format h = (Throw e, h) ∧
    DecompressionStreamPolyfill format h = (Throw e, h) ∧
    exn_class e = TypeError.
Proof.
  intros Hnot Hs. destruct (isValidFormat format) eqn:Hv.
  - apply isValidFormat_true_iff in Hv as (key & -> & Hkey).
    change (property_names COMPRESSION_FORMATS)
      with (CompressionFormat ++ property_names Object_prototype)%list in Hkey.
    apply elem_of_app in Hkey as [Hown|Hinh].
    { destruct Hnot. by apply list_elem_of_fmap_2. }
    destruct (construct_inherited Compression key h Hinh) as (e & Hc & He).
    destruct (construct_inherited Decompression key h Hinh) as (e' & Hd & _).
    simpl in Hc, Hd. exists e.
    pose proof (constructors_same_outcome (VString key) h) as Hsame.
    rewrite Hc, Hd in Hsame. simpl in Hsame. injection Hsame as <-.
    split_and!; [done | done |].
    rewrite !elem_of_cons, elem_of_nil in He. by destruct_or!; subst e.
  - exists (InvalidFormat rendering).
    rewrite CompressionStreamPolyfill_rejected, DecompressionStreamPolyfill_rejected by done.
    unfold rejection. rewrite Hs. done.
Qed.

Lemma invalid_format_TypeError_witness :
(VString "toString" ∉ VString <$> CompressionFormat) ∧
  String_ (VString "toString") = Normal "toString" ∧
  ∃ e,
    CompressionStreamPolyfill (VString "toString") empty_heap = (Throw e, empty_heap) ∧
    DecompressionStreamPolyfill (VString "toString") empty_heap = (Throw e, empty_heap) ∧
    exn_class e = TypeError.
Proof.
  assert (VString "toString" ∉ VString <$> CompressionFormat) as Hnot
    by (apply (bool_decide_unpack _); vm_compute; reflexivity).
  split; [exact Hnot|]. split; [reflexivity|].
  exact (invalid_format_TypeError (VString "toString") "toString" empty_heap Hnot eq_refl).
Defined.

(** C10.  A value that is not of type string is rejected whatever its
    string conversion gives: [isValidFormat] is false and both constructors
    throw.  This covers numbers, null, undefined, symbols and objects,
    among them an object whose [toString] returns "gzip". *)
Theorem non_string_rejected format :
  typeof format ≠ "string" →
  isValidFormat format = false ∧
  ∀ h, ∃ e1 e2,
    (CompressionStreamPolyfill format h).1 = Throw e1 ∧
    (DecompressionStreamPolyfill format h).1 = Throw e2.
Proof.
  intros Hty. pose proof (isValidFormat_not_string format Hty) as Hrej.
  split; [done|]. intros h.
  destruct (rejection_throws format) as [e He]. exists e, e.
  by rewrite CompressionStreamPolyfill_rejected, DecompressionStreamPolyfill_rejected, He.
Qed.

Lemma non_string_rejected_witness :
  typeof (VObject false (Normal "gzip")) ≠ "string" ∧
  isValidFormat (VObject false (Normal "gzip")) = false ∧
  ∀ h, ∃ e1 e2,
    (CompressionStreamPolyfill (VObject false (Normal "gzip")) h).1 = Throw e1 ∧
    (DecompressionStreamPolyfill (VObject false (Normal "gzip")) h).1 = Throw e2.
Proof.
  split; [simpl; discriminate|].
  apply (non_string_rejected (VObject false (Normal "gzip"))). simpl; discriminate.
Defined.

(** ** What later operations leave in place *)

Lemma extends_refl h : extends h h.
Proof. by unfold extends. Qed.

Lemma extends_trans h1 h2 h3 : extends h1 h2 → extends h2 h3 → extends h1 h3.
Proof.
  intros (Hi & Hr & Hw & Ht) (Hi' & Hr' & Hw' & Ht').
  unfold extends; split_and!; by etrans.
Qed.

Create HintDb grows.

Lemma grows_ret {A} (a : A) : grows (mret a).
Proof. intros h. apply extends_refl. Qed.

Lemma grows_throw {A} e : grows (@throw A e).
Proof. intros h. apply extends_refl. Qed.

Lemma grows_lift {A} (c : completion A) : grows (lift c).
Proof. intros h. apply extends_refl. Qed.

Lemma grows_bind {A B} (m : M A) (k : A → M B) :
  grows m → (∀ a, grows (k a)) → grows (m ≫= k).
Proof.
  intros Hm Hk h. unfold mbind, M_bind. specialize (Hm h).
  destruct (m h) as [[a|e] h']; simpl in *; [|done].
  eapply extends_trans; [done | apply Hk].
Qed.

Lemma grows_zlib_create k : grows (zlib_create k).
Proof.
  intros h. unfold extends; simpl. rewrite length_app; simpl.
  split_and!; try done. lia.
Qed.

Lemma grows_Readable_toWeb x : grows (Readable_toWeb x).
Proof.
  intros h. destruct x; try apply extends_refl.
  unfold extends; simpl. split_and!; try done. by apply prefix_app_r.
Qed.

Lemma grows_Writable_toWeb x : grows (Writable_toWeb x).
Proof.
  intros h. destruct x; try apply extends_refl.
  unfold extends; simpl. split_and!; try done. by apply prefix_app_r.
Qed.

Lemma grows_new_instance properties : grows (new_instance properties).
Proof.
  intros h. unfold extends; simpl. split_and!; try done. by apply prefix_app_r.
Qed.

Lemma grows_call_entry table format : grows (call_entry table format).
Proof.
  unfold call_entry. destruct format; try apply grows_throw.
  destruct (Get table s) as [[k|name|]|];
    auto using grows_throw, grows_lift, grows_zlib_create.
Qed.

#[local] Hint Resolve grows_ret grows_throw grows_lift grows_zlib_create
  grows_Readable_toWeb grows_Writable_toWeb grows_new_instance
  grows_call_entry : grows.

Lemma grows_construct c format : grows (construct c format).
Proof.
  destruct c; simpl;
    unfold CompressionStreamPolyfill, DecompressionStreamPolyfill;
    destruct (negb (isValidFormat format));
    repeat (apply grows_bind; [auto with grows | intros ?]); auto with grows.
Qed.

Lemma extends_set_transform t tr h : extends h (set_transform t tr h).
Proof.
  unfold extends; simpl. rewrite length_insert. by split_and!.
Qed.

Lemma grows_writable_write w chunk : grows (writable_write w chunk).
Proof.
  intros h. unfold writable_write.
  destruct (sink w h) as [[t tr]|]; [|apply extends_refl].
  destruct (t_ended tr); [apply extends_refl | apply extends_set_transform].
Qed.

Lemma grows_writable_close w : grows (writable_close w).
Proof.
  intros h. unfold writable_close.
  destruct (sink w h) as [[t tr]|]; [|apply extends_refl].
  destruct (t_ended tr); [apply extends_refl | apply extends_set_transform].
Qed.

Lemma extends_run_operation op h : extends h (run_operation op h).
Proof.
  destruct op; simpl.
  - apply grows_construct.
  - apply grows_writable_write.
  - apply grows_writable_close.
Qed.

Lemma extends_run_operations ops h : extends h (run_operations ops h).
Proof.
  revert h. induction ops as [|op ops IH]; intros h; simpl.
  - apply extends_refl.
  - eapply extends_trans; [apply extends_run_operation | apply IH].
Qed.

Lemma adapter_over_extends h h' a r w t :
  extends h h' → adapter_over h a r w t → adapter_over h' a r w t.
Proof.
  intros (Hi & Hr & Hw & _) (i & -> & Hprops & Hrd & Hwr).
  exists i. split_and!; [done|..]; by eapply prefix_lookup_Some.
Qed.

Lemma construct_valid_adapter c f h :
  f ∈ CompressionFormat →
  ∃ k a h',
    Get (table_of c) f = Some (Factory k) ∧
    construct c (VString f) h = (Normal a, h') ∧
    adapter_over h' a (length (readables h)) (length (writables h)) (length (transforms h)) ∧
    transforms h' = (transforms h ++ [Transform k [] false])%list.
Proof.
  intros Hf. destruct (construct_valid c f h Hf) as (k & Hget & ->).
  eexists k, _, _. split_and!; [done | done | | done].
  exists (length (instances h)); simpl.
  split_and!; [done | ..]; by apply list_lookup_middle.
Qed.

(** ** Claims about a constructed adapter *)

Lemma run_step_keeps_instance i properties s h :
  (∀ name v, s ≠ StepAssign (VInstance i) name v) →
  instances h !! i = Some properties →
  instances (run_step s h) !! i = Some properties.
Proof.
  intros Hs Hi. destruct s as [op|o name v]; simpl.
  - destruct (extends_run_operation op h) as (Hpre & _).
    by eapply prefix_lookup_Some.
  - destruct o; simpl; try done.
    destruct (instances h !! i0) as [properties0|] eqn:Hi0; simpl; [|done].
    rewrite list_lookup_insert_ne; [done|].
    intros ->. by destruct (Hs name v).
Qed.

Lemma run_steps_keep_instance i properties steps : ∀ h,
  Forall (λ s, ∀ name v, s ≠ StepAssign (VInstance i) name v) steps →
  instances h !! i = Some properties →
  instances (run_steps steps h) !! i = Some properties.
Proof.
  induction steps as [|s steps IH]; intros h Hsteps Hi; simpl; [done|].
  apply Forall_cons in Hsteps as [Hs Hsteps].
  apply IH; [done|]. by apply run_step_keeps_instance.
Qed.

(** C4 as stated fails: the identities are not fixed against every later
    operation.  [readonly] is erased at run time and the two properties are
    ordinary writable ones, so after [cs.readable = null] the instance no
    longer refers to the stream it was constructed with. *)
Lemma readable_can_be_reassigned :
  (construct Compression (VString "gzip") empty_heap).1 = Normal (VInstance 0) ∧
  (get_property (VInstance 0) "readable"
     (construct Compression (VString "gzip") empty_heap).2).1 =
    Normal (VReadableStream 0) ∧
  (get_property (VInstance 0) "readable"
     (run_steps [StepAssign (VInstance 0) "readable" VNull]
        (construct Compression (VString "gzip") empty_heap).2)).1 =
    Normal VNull ∧
  VNull ≠ VReadableStream 0.
Proof. split_and!; done. Qed.

(** C4 (amended).  Constructing either adapter with one of the three
    formats succeeds and yields an instance whose own properties are
    exactly [readable] and [writable], holding a ReadableStream and a
    WritableStream (neither null nor undefined) bridged onto one
    transform.  Nothing the module or the streams do changes them: over
    any run of later steps (constructions with any argument, writes,
    closes, assignments to other objects) in which client code does not
    itself assign to a property of this instance, it keeps exactly these
    two properties with the same two stream objects. *)
Theorem adapter_properties_kept_unless_assigned c f h :
  f ∈ CompressionFormat →
  ∃ i r w h',
    construct c (VString f) h = (Normal (VInstance i), h') ∧
    instances h' !! i =
      Some [("readable", VReadableStream r); ("writable", VWritableStream w)] ∧
    is_Some (source (VReadableStream r) h') ∧
    is_Some (sink (VWritableStream w) h') ∧
    ∀ steps,
      Forall (λ s, ∀ name v, s ≠ StepAssign (VInstance i) name v) steps →
      let h'' := run_steps steps h' in
      instances h'' !! i =
        Some [("readable", VReadableStream r); ("writable", VWritableStream w)] ∧
      get_property (VInstance i) "readable" h'' = (Normal (VReadableStream r), h'') ∧
      get_property (VInstance i) "writable" h'' = (Normal (VWritableStream w), h'').
Proof.
  intros Hf.
  destruct (construct_valid_adapter c f h Hf)
    as (k & a & h' & _ & Hc & (i & -> & Hprops & Hrd & Hwr) & Htr).
  exists i, (length (readables h)), (length (writables h)), h'.
  assert (transforms h' !! length (transforms h) = Some (Transform k [] false)) as Ht
    by (rewrite Htr; by apply list_lookup_middle).
  split_and!; [done | done | ..].
  - simpl. rewrite Hrd; simpl. by rewrite Ht.
  - simpl. rewrite Hwr; simpl. by rewrite Ht.
  - intros steps Hsteps h''.
    pose proof (run_steps_keep_instance i _ steps h' Hsteps Hprops) as Hkeep.
    fold h'' in Hkeep.
    split_and!; [done | ..]; unfold get_property; by rewrite Hkeep.
Qed.

Lemma adapter_properties_kept_unless_assigned_witness :
  "gzip" ∈ CompressionFormat ∧
  ∃ i r w h',
    construct Compression (VString "gzip") empty_heap = (Normal (VInstance i), h') ∧
    instances h' !! i =
      Some [("readable", VReadableStream r); ("writable", VWritableStream w)] ∧
    is_Some (source (VReadableStream r) h') ∧
    is_Some (sink (VWritableStream w) h') ∧
    ∀ steps,
      Forall (λ s, ∀ name v, s ≠ StepAssign (VInstance i) name v) steps →
      let h'' := run_steps steps h' in
      instances h'' !! i =
        Some [("readable", VReadableStream r); ("writable", VWritableStream w)] ∧
      get_property (VInstance i) "readable" h'' = (Normal (VReadableStream r), h'') ∧
      get_property (VInstance i) "writable" h'' = (Normal (VWritableStream w), h'').
Proof.
  assert ("gzip" ∈ CompressionFormat) as Hf by (apply (bool_decide_unpack _); reflexivity).
  split; [exact Hf|].
  exact (adapter_properties_kept_unless_assigned Compression "gzip" empty_heap Hf).
Defined.

(** ** Data through an adapter *)

Lemma sink_set_transform h w t tr :
  writables h !! w = Some t →
  (t < length (transforms h))%nat →
  sink (VWritableStream w) (set_transform t tr h) = Some (t, tr).
Proof.
  intros Hw Ht. unfold sink; simpl. rewrite Hw; simpl.
  by rewrite list_lookup_insert_eq.
Qed.

Lemma source_set_transform h r t tr :
  readables h !! r = Some t →
  (t < length (transforms h))%nat →
  source (VReadableStream r) (set_transform t tr h) = Some tr.
Proof.
  intros Hr Ht. unfold source; simpl. rewrite Hr; simpl.
  by rewrite list_lookup_insert_eq.
Qed.

Lemma set_transform_twice t tr tr' h :
  set_transform t tr' (set_transform t tr h) = set_transform t tr' h.
Proof. unfold set_transform; simpl. by rewrite list_insert_insert_eq. Qed.

(** Piping one chunk through a fresh adapter and reading to the end gives
    what the codec makes of that chunk. *)
Lemma pipe_then_read zlib h a r w t k data :
  adapter_over h a r w t →
  transforms h !! t = Some (Transform k [] false) →
  pipeThrough [data] a h =
    (Normal (VReadableStream r), set_transform t (Transform k data true) h) ∧
  read_all zlib (VReadableStream r) (set_transform t (Transform k data true) h) =
    (emitted (zlib_run zlib k data), set_transform t (Transform k data true) h).
Proof.
  intros (i & -> & Hprops & Hrd & Hwr) Ht.
  pose proof (lookup_lt_Some _ _ _ Ht) as Hlt.
  split.
  - unfold pipeThrough, mbind, M_bind, get_property. rewrite Hprops; simpl.
    unfold mbind, M_bind, writable_write, sink. rewrite Hwr; simpl. rewrite Ht; simpl.
    unfold writable_close. rewrite (sink_set_transform _ _ _ _ Hwr Hlt); simpl.
    rewrite set_transform_twice. simpl. by rewrite Hprops.
  - unfold read_all. rewrite (source_set_transform _ _ _ _ Hrd Hlt); simpl.
    by destruct (zlib_run zlib k data).
Qed.

Lemma through_adapter zlib c f data h :
  f ∈ CompressionFormat →
  ∃ k a h1 r h2,
    Get (table_of c) f = Some (Factory k) ∧
    construct c (VString f) h = (Normal a, h1) ∧
    pipeThrough [data] a h1 = (Normal r, h2) ∧
    read_all zlib r h2 = (emitted (zlib_run zlib k data), h2).
Proof.
  intros Hf.
  destruct (construct_valid_adapter c f h Hf) as (k & a & h1 & Hget & Hc & Ha & Htr).
  assert (transforms h1 !! length (transforms h) = Some (Transform k [] false)) as Ht
    by (rewrite Htr; by apply list_lookup_middle).
  destruct (pipe_then_read zlib h1 a _ _ _ k data Ha Ht) as [Hpipe Hread].
  by eexists k, a, h1, _, _.
Qed.

Lemma compress_spec zlib f data h :
  f ∈ CompressionFormat →
  ∃ k h', Get COMPRESSION_FORMATS f = Some (Factory k) ∧
    compress zlib data (VString f) h = (emitted (zlib_run zlib k data), h').
Proof.
  intros Hf.
  destruct (through_adapter zlib Compression f data h Hf)
    as (k & a & h1 & r & h2 & Hget & Hc & Hpipe & Hread).
  exists k, h2. split; [done|].
  unfold compress, mbind, M_bind. simpl in Hc. by rewrite Hc, Hpipe.
Qed.

Lemma decompress_spec zlib f data h :
  f ∈ CompressionFormat →
  ∃ k h', Get DECOMPRESSION_FORMATS f = Some (Factory k) ∧
    decompress zlib data (VString f) h = (emitted (zlib_run zlib k data), h').
Proof.
  intros Hf.
  destruct (through_adapter zlib Decompression f data h Hf)
    as (k & a & h1 & r & h2 & Hget & Hc & Hpipe & Hread).
  exists k, h2. split; [done|].
  unfold decompress, mbind, M_bind. simpl in Hc. by rewrite Hc, Hpipe.
Qed.

(** Each decompression factory is the counterpart of the compression
    factory stored under the same name. *)
Lemma tables_paired f enc dec :
  Get COMPRESSION_FORMATS f = Some (Factory enc) →
  Get DECOMPRESSION_FORMATS f = Some (Factory dec) →
  (enc, dec) ∈ [(Deflate, Inflate); (DeflateRaw, InflateRaw); (Gzip, Gunzip)].
Proof.
  simpl. repeat case_decide; intros [= <-] [= <-];
    rewrite !elem_of_cons; auto.
Qed.

Section RoundTrip.

(** The codec provider is external; what is assumed of it is that each of
    its decoders undoes the encoder of the same format. *)
Variable zlib : codec.
Hypothesis Inflate_Deflate : inverts zlib Inflate Deflate.
Hypothesis InflateRaw_DeflateRaw : inverts zlib InflateRaw DeflateRaw.
Hypothesis Gunzip_Gzip : inverts zlib Gunzip Gzip.

(** C2.  For each of the three formats and every byte sequence, the empty
    one included, compressing through the compression adapter and then
    decompressing the result through the decompression adapter of the same
    format reads back exactly the bytes that went in. *)
Theorem round_trip_identity f data h :
  f ∈ CompressionFormat →
  ∃ h', round_trip zlib data (VString f) h = (Normal (Some data), h').
Proof.
  intros Hf.
  destruct (compress_spec zlib f data h Hf) as (enc & h1 & Henc & Hcompress).
  assert (∃ dec, Get DECOMPRESSION_FORMATS f = Some (Factory dec) ∧ inverts zlib dec enc)
    as (dec & Hdec & Hinv).
  { destruct (decompress_spec zlib f [] h Hf) as (dec & _ & Hdec & _).
    exists dec. split; [done|].
    pose proof (tables_paired f enc dec Henc Hdec) as Hpair.
    rewrite !elem_of_cons, elem_of_nil in Hpair.
    destruct Hpair as [[= -> ->]|[[= -> ->]|[[= -> ->]|[]]]]; done. }
  destruct (Hinv data) as (encoded & Hrun & Hback).
  destruct (decompress_spec zlib f encoded h1 Hf) as (dec' & h2 & Hdec' & Hdecompress).
  assert (dec' = dec) as -> by congruence.
  exists h2. unfold round_trip, mbind, M_bind.
  rewrite Hcompress, Hrun; simpl. by rewrite Hdecompress, Hback.
Qed.

End RoundTrip.

Lemma round_trip_identity_witness :
  inverts stored_codec Inflate Deflate ∧
  inverts stored_codec InflateRaw DeflateRaw ∧
  inverts stored_codec Gunzip Gzip ∧
  "gzip" ∈ CompressionFormat ∧
  ∃ h', round_trip stored_codec [Byte.x48; Byte.x69] (VString "gzip") empty_heap =
         (Normal (Some [Byte.x48; Byte.x69]), h').
Proof.
  assert (inverts stored_codec Inflate Deflate) as H1
    by (intros data; eexists; split; reflexivity).
  assert (inverts stored_codec InflateRaw DeflateRaw) as H2
    by (intros data; eexists; split; reflexivity).
  assert (inverts stored_codec Gunzip Gzip) as H3
    by (intros data; eexists; split; reflexivity).
  assert ("gzip" ∈ CompressionFormat) as Hf by (apply (bool_decide_unpack _); reflexivity).
  split_and!; [exact H1 | exact H2 | exact H3 | exact Hf |].
  exact (round_trip_identity stored_codec H1 H2 H3 "gzip" [Byte.x48; Byte.x69] empty_heap Hf).
Defined.

(** C8.  With any of the three formats the decompression constructor
    completes normally, whatever the heap; it never sees the data.  Bytes
    of any kind can then be written and the stream closed, and it is the
    read that reports what the decoder makes of them: when the decoder
    refuses them, its error is thrown by the read, not before. *)
Theorem decompression_constructs_before_data zlib f h :
  f ∈ CompressionFormat →
  ∃ dec a h1,
    Get DECOMPRESSION_FORMATS f = Some (Factory dec) ∧
    DecompressionStreamPolyfill (VString f) h = (Normal a, h1) ∧
    ∀ data, ∃ r h2,
      pipeThrough [data] a h1 = (Normal r, h2) ∧
      ∀ e, zlib_run zlib dec data = Throw e → read_all zlib r h2 = (Throw e, h2).
Proof.
  intros Hf.
  destruct (construct_valid_adapter Decompression f h Hf)
    as (k & a & h1 & Hget & Hc & Ha & Htr).
  exists k, a, h1. split_and!; [done | done |]. intros data.
  assert (transforms h1 !! length (transforms h) = Some (Transform k [] false)) as Ht
    by (rewrite Htr; by apply list_lookup_middle).
  destruct (pipe_then_read zlib h1 a _ _ _ k data Ha Ht) as [Hpipe Hread].
  eexists _, _. split; [done|]. intros e He. by rewrite Hread, He.
Qed.

Lemma decompression_constructs_before_data_witness :
  "gzip" ∈ CompressionFormat ∧
  ∃ dec a h1,
    Get DECOMPRESSION_FORMATS "gzip" = Some (Factory dec) ∧
    DecompressionStreamPolyfill (VString "gzip") empty_heap = (Normal a, h1) ∧
    ∀ data, ∃ r h2,
      pipeThrough [data] a h1 = (Normal r, h2) ∧
      ∀ e, zlib_run stored_codec dec data = Throw e →
           read_all stored_codec r h2 = (Throw e, h2).
Proof.
  assert ("gzip" ∈ CompressionFormat) as Hf by (apply (bool_decide_unpack _); reflexivity).
  split; [exact Hf|].
  exact (decompression_constructs_before_data stored_codec "gzip" empty_heap Hf).
Defined.

(** A truncated gzip stream: constructing is fine, reading throws. *)
Example truncated_gzip_errors_on_read :
  ∃ a h1 r h2,
    DecompressionStreamPolyfill (VString "gzip") empty_heap = (Normal a, h1) ∧
    pipeThrough [[Byte.x1f]] a h1 = (Normal r, h2) ∧
    read_all stored_codec r h2 = (Throw (Exception Error "incorrect header check"), h2).
Proof. by eexists _, _, _, _. Qed.

(** ** Registration *)

Lemma typeof_undefined v : typeof v = "undefined" ↔ v = VUndefined.
Proof.
  split; [|by intros ->].
  destruct v as [| | | | | | |[]| | | | |]; simpl; by try discriminate.
Qed.

Lemma module_load_unfold g :
  module_load g =
    (register "CompressionStream" Compression g ≫=
     register "DecompressionStream" Decompression).
Proof. reflexivity. Qed.







Example module_load_half_native_host :
  module_load half_native_host =
    Normal (<["CompressionStream" := installed Compression]> half_native_host).
Proof. reflexivity. Qed.

Example module_load_empty_host :
  module_load ∅ =
    Normal (<["DecompressionStream" := installed Decompression]>
              (<["CompressionStream" := installed Compression]> ∅)).
Proof. reflexivity. Qed.

(** The pinned host in one line: a non-configurable property holding
    [undefined] passes the [typeof] guard and [Object.defineProperty]
    throws, so the second name is not reached. *)
Example module_load_pinned_host :
  module_load pinned_host = Throw cannot_redefine.
Proof. reflexivity. Qed.

(** X14.  Registration is idempotent: once the module has loaded, loading
    it again completes and changes nothing, since both names are then
    defined and both guards skip. *)
Lemma module_load_idempotent g g' :
  module_load g = Normal g' → module_load g' = Normal g'.
Proof.
  rewrite !module_load_unfold. unfold mbind, completion_bind.
  destruct (register "CompressionStream" Compression g) as [g1|] eqn:H1; [|done].
  intros H2.
  assert (∀ name c g0 g1, register name c g0 = Normal g1 →
            typeof (global_get g1 name) ≠ "undefined") as Hdef.
  { intros name c g0 g2. unfold register, defineProperty.
    case_bool_decide as Hty; [|by intros [= <-]].
    assert (∀ g3 : gmap string property, g3 = <[name := installed c]> g0 →
              typeof (global_get g3 name) ≠ "undefined") as Hins
      by (intros g3 ->; unfold global_get; by rewrite lookup_insert_eq).
    apply typeof_undefined in Hty.
    destruct (g0 !! name) as [p|] eqn:Hp; [|intros [= <-]; by apply Hins].
    unfold global_get in Hty. rewrite Hp in Hty. simpl in Hty.
    repeat (case_match; try done); try (intros [= <-]; by apply Hins). }
  assert (∀ name c g0 g1 other, register name c g0 = Normal g1 → other ≠ name →
            g1 !! other = g0 !! other) as Hother.
  { intros name c g0 g2 other. unfold register, defineProperty.
    repeat (case_match; try done); intros [= <-] Hne; by rewrite ?lookup_insert_ne. }
  pose proof (Hdef _ _ _ _ H1) as Hc. pose proof (Hdef _ _ _ _ H2) as Hd.
  assert (typeof (global_get g' "CompressionStream") ≠ "undefined") as Hc'.
  { unfold global_get. by rewrite (Hother _ _ _ _ "CompressionStream" H2). }
  assert (∀ name c, typeof (global_get g' name) ≠ "undefined" →
            register name c g' = Normal g') as Hskip
    by (intros name c Hne; unfold register; by rewrite bool_decide_eq_false_2).
  by rewrite !Hskip.
Qed.

(** * Further properties of the module *)

(** ** What the guard accepts *)

(** X1.  [isValidFormat] is true for exactly fifteen values: the strings
    "deflate", "deflate-raw" and "gzip", and the twelve strings that name a
    member of [Object.prototype].  Every other string (other case, padding,
    the empty string) and every value that is not a string is refused. *)
Theorem isValidFormat_accepted_set format :
  isValidFormat format = true ↔
  ∃ key, format = VString key ∧
    key ∈ [ "deflate"; "deflate-raw"; "gzip";
            "constructor"; "__defineGetter__"; "__defineSetter__";
            "hasOwnProperty"; "__lookupGetter__"; "__lookupSetter__";
            "isPrototypeOf"; "propertyIsEnumerable"; "toString"; "valueOf";
            "__proto__"; "toLocaleString" ].
Proof. apply isValidFormat_true_iff. Qed.

(** X2.  The guard only consults [COMPRESSION_FORMATS], also in the
    decompression constructor.  This is sound because the two tables
    answer [in] alike for every key, and each holds a zlib factory under
    exactly the three format names. *)
Theorem tables_have_the_same_keys key :
  HasProperty DECOMPRESSION_FORMATS key = HasProperty COMPRESSION_FORMATS key ∧
  (key ∈ CompressionFormat ↔ ∃ enc, Get COMPRESSION_FORMATS key = Some (Factory enc)) ∧
  (key ∈ CompressionFormat ↔ ∃ dec, Get DECOMPRESSION_FORMATS key = Some (Factory dec)).
Proof.
  unfold CompressionFormat. rewrite !elem_of_cons, elem_of_nil.
  split_and!.
  - simpl. by repeat case_decide.
  - split.
    + intros [->|[->|[->|[]]]]; by eexists.
    + simpl. repeat case_decide; subst; intros [enc [=]]; auto.
  - split.
    + intros [->|[->|[->|[]]]]; by eexists.
    + simpl. repeat case_decide; subst; intros [dec [=]]; auto.
Qed.

(** ** When construction succeeds *)

Lemma not_format_inherited key :
  key ∈ property_names Object_prototype → key ∉ CompressionFormat.
Proof.
  simpl. unfold CompressionFormat. rewrite !elem_of_cons, !elem_of_nil.
  intros Hkey Hf. destruct_or!; subst; done.
Qed.

(** X3.  Either constructor returns an adapter exactly when its argument
    is one of the strings "deflate", "deflate-raw", "gzip"; on every other
    value, the inherited names that pass the guard included, it throws.
    A constructor that throws leaves the heap as it found it. *)
Theorem construct_succeeds_iff c format h :
  ((∃ a h', construct c format h = (Normal a, h')) ↔
   (∃ f, f ∈ CompressionFormat ∧ format = VString f)) ∧
  (∀ e h', construct c format h = (Throw e, h') → h' = h).
Proof.
  destruct (isValidFormat format) eqn:Hv.
  - apply isValidFormat_true_iff in Hv as (key & -> & Hkey).
    change (property_names COMPRESSION_FORMATS)
      with (CompressionFormat ++ property_names Object_prototype)%list in Hkey.
    apply elem_of_app in Hkey as [Hown|Hinh].
    + destruct (construct_valid c key h Hown) as (k & _ & ->).
      split; [|by intros e h' [=]].
      split; [intros _; by exists key | intros _; by eexists _, _].
    + destruct (construct_inherited c key h Hinh) as (e & -> & _).
      split; [|by intros e' h' [= _ <-]].
      split; [by intros (a & h' & [=]) |].
      intros (f & Hf & [= <-]). by apply not_format_inherited in Hinh.
  - rewrite (construct_rejected c format h Hv).
    destruct (rejection_throws format) as [e ->].
    split; [|by intros e' h' [= _ <-]].
    split; [by intros (a & h' & [=]) |].
    intros (f & Hf & ->).
    by rewrite (isValidFormat_CompressionFormat f Hf) in Hv.
Qed.

(** X4.  A successful construction calls the factory its table holds
    under the format exactly once.  The heap gains one transform of that
    kind, with no input and not ended (nothing is read or written while
    constructing), one readable stream and one writable stream, both over
    that transform, and the instance; everything that was there is kept. *)
Theorem construction_allocates_one_transform c f h :
  f ∈ CompressionFormat →
  ∃ k a r w h',
    Get (table_of c) f = Some (Factory k) ∧
    construct c (VString f) h = (Normal a, h') ∧
    transforms h' = (transforms h ++ [Transform k [] false])%list ∧
    readables h' = (readables h ++ [length (transforms h)])%list ∧
    writables h' = (writables h ++ [length (transforms h)])%list ∧
    instances h' =
      (instances h ++ [[("readable", VReadableStream r); ("writable", VWritableStream w)]])%list ∧
    adapter_over h' a r w (length (transforms h)).
Proof.
  intros Hf.
  destruct (construct_valid_adapter c f h Hf) as (k & a & h' & Hget & Hc & Ha & Htr).
  destruct (construct_valid c f h Hf) as (k' & Hget' & Hc').
  assert (k' = k) as -> by congruence.
  rewrite Hc in Hc'. injection Hc' as -> ->.
  by eexists k, _, _, _, _.
Qed.

Lemma construction_allocates_one_transform_witness :
  "deflate-raw" ∈ CompressionFormat ∧
  ∃ k a r w h',
    Get (table_of Decompression) "deflate-raw" = Some (Factory k) ∧
    construct Decompression (VString "deflate-raw") empty_heap = (Normal a, h') ∧
    transforms h' = (transforms empty_heap ++ [Transform k [] false])%list ∧
    readables h' = (readables empty_heap ++ [length (transforms empty_heap)])%list ∧
    writables h' = (writables empty_heap ++ [length (transforms empty_heap)])%list ∧
    instances h' =
      (instances empty_heap ++
         [[("readable", VReadableStream r); ("writable", VWritableStream w)]])%list ∧
    adapter_over h' a r w (length (transforms empty_heap)).
Proof.
  assert ("deflate-raw" ∈ CompressionFormat) as Hf
    by (apply (bool_decide_unpack _); reflexivity).
  split; [exact Hf|].
  exact (construction_allocates_one_transform Decompression "deflate-raw" empty_heap Hf).
Defined.

(** X5.  No two adapters share anything.  An adapter constructed now and
    one constructed later, after any operations and whatever the classes
    and formats, are different instances with different readable streams,
    different writable streams and different transforms, and the first is
    still intact when the second exists. *)
Theorem adapters_never_share c1 c2 f1 f2 ops h :
  f1 ∈ CompressionFormat →
  f2 ∈ CompressionFormat →
  ∃ a1 h1 a2 h2 r1 w1 t1 r2 w2 t2,
    construct c1 (VString f1) h = (Normal a1, h1) ∧
    construct c2 (VString f2) (run_operations ops h1) = (Normal a2, h2) ∧
    adapter_over h2 a1 r1 w1 t1 ∧
    adapter_over h2 a2 r2 w2 t2 ∧
    a1 ≠ a2 ∧ r1 ≠ r2 ∧ w1 ≠ w2 ∧ t1 ≠ t2.
Proof.
  intros Hf1 Hf2.
  destruct (construct_valid_adapter c1 f1 h Hf1) as (k1 & a1 & h1 & _ & Hc1 & Ha1 & Htr1).
  set (h' := run_operations ops h1).
  destruct (construct_valid_adapter c2 f2 h' Hf2) as (k2 & a2 & h2 & _ & Hc2 & Ha2 & Htr2).
  pose proof (extends_run_operations ops h1) as Hext. fold h' in Hext.
  pose proof (grows_construct c2 (VString f2) h') as Hext2. rewrite Hc2 in Hext2.
  assert (adapter_over h2 a1 (length (readables h)) (length (writables h))
            (length (transforms h))) as Ha1'
    by (eapply adapter_over_extends; [|done]; by eapply extends_trans).
  eexists a1, h1, a2, h2, _, _, _, _, _, _.
  split_and!; [done | done | done | done | ..];
    destruct Ha1 as (i1 & -> & Hi1 & Hr1 & Hw1), Ha1' as (i1' & [= <-] & Hi1' & _),
             Ha2 as (i2 & -> & Hi2 & _), Hext as (_ & Hrd & Hwr & Hlen);
    apply lookup_lt_Some in Hr1, Hw1; apply prefix_length in Hrd, Hwr.
  - intros [= ->]. rewrite Hi2 in Hi1'. injection Hi1' as Hr Hw. lia.
  - lia.
  - lia.
  - rewrite Htr1, length_app in Hlen. simpl in Hlen. lia.
Qed.

Lemma adapters_never_share_witness :
  "gzip" ∈ CompressionFormat ∧
  "deflate" ∈ CompressionFormat ∧
  ∃ a1 h1 a2 h2 r1 w1 t1 r2 w2 t2,
    construct Compression (VString "gzip") empty_heap = (Normal a1, h1) ∧
    construct Decompression (VString "deflate")
      (run_operations [OpWrite (VWritableStream 0) [Byte.x48]] h1) = (Normal a2, h2) ∧
    adapter_over h2 a1 r1 w1 t1 ∧
    adapter_over h2 a2 r2 w2 t2 ∧
    a1 ≠ a2 ∧ r1 ≠ r2 ∧ w1 ≠ w2 ∧ t1 ≠ t2.
Proof.
  assert ("gzip" ∈ CompressionFormat) as Hf1 by (apply (bool_decide_unpack _); reflexivity).
  assert ("deflate" ∈ CompressionFormat) as Hf2 by (apply (bool_decide_unpack _); reflexivity).
  split; [exact Hf1|]. split; [exact Hf2|].
  exact (adapters_never_share Compression Decompression "gzip" "deflate"
           [OpWrite (VWritableStream 0) [Byte.x48]] empty_heap Hf1 Hf2).
Defined.

(** ** Construction leaves existing objects alone *)

Lemma preserved_refl h : preserved h h.
Proof. by unfold preserved. Qed.

Lemma preserved_trans h1 h2 h3 : preserved h1 h2 → preserved h2 h3 → preserved h1 h3.
Proof.
  intros (Ht & Hr & Hw & Hi) (Ht' & Hr' & Hw' & Hi').
  unfold preserved; split_and!; by etrans.
Qed.

Lemma preserves_bind {A B} (m : M A) (k : A → M B) :
  preserves m → (∀ a, preserves (k a)) → preserves (m ≫= k).
Proof.
  intros Hm Hk h. unfold mbind, M_bind. specialize (Hm h).
  destruct (m h) as [[a|e] h']; simpl in *; [|done].
  eapply preserved_trans; [done | apply Hk].
Qed.

Lemma preserves_call_entry table format : preserves (call_entry table format).
Proof.
  intros h. unfold call_entry.
  destruct format; try apply preserved_refl.
  destruct (Get table s) as [[k|name|]|]; try apply preserved_refl.
  unfold preserved; simpl. split_and!; try done. by apply prefix_app_r.
Qed.

Lemma preserves_Readable_toWeb x : preserves (Readable_toWeb x).
Proof.
  intros h. destruct x; try apply preserved_refl.
  unfold preserved; simpl. split_and!; try done. by apply prefix_app_r.
Qed.

Lemma preserves_Writable_toWeb x : preserves (Writable_toWeb x).
Proof.
  intros h. destruct x; try apply preserved_refl.
  unfold preserved; simpl. split_and!; try done. by apply prefix_app_r.
Qed.

Lemma preserves_new_instance properties : preserves (new_instance properties).
Proof.
  intros h. unfold preserved; simpl. split_and!; try done. by apply prefix_app_r.
Qed.

(** X6.  Whatever its argument and whether it returns or throws, a
    constructor never changes or removes an object that exists: every
    transform keeps its kind, the input it has received and its ended
    flag, every stream stays on its transform, and every instance keeps
    its properties.  Data in flight through other adapters is not
    disturbed by constructing a new one. *)
Theorem construct_preserves_existing c format h :
  let h' := (construct c format h).2 in
  (∀ t tr, transforms h !! t = Some tr → transforms h' !! t = Some tr) ∧
  (∀ r t, readables h !! r = Some t → readables h' !! r = Some t) ∧
  (∀ w t, writables h !! w = Some t → writables h' !! w = Some t) ∧
  (∀ i properties, instances h !! i = Some properties → instances h' !! i = Some properties).
Proof.
  assert (preserves (construct c format)) as Hp.
  { destruct c; simpl;
      unfold CompressionStreamPolyfill, DecompressionStreamPolyfill;
      destruct (negb (isValidFormat format));
      repeat (apply preserves_bind; [| intros ?]);
      first [ apply preserves_call_entry | apply preserves_Readable_toWeb
            | apply preserves_Writable_toWeb | apply preserves_new_instance
            | intros ?; apply preserved_refl ]. }
  destruct (Hp h) as (Ht & Hr & Hw & Hi).
  simpl. split_and!; intros ? ? Hl; by eapply prefix_lookup_Some.
Qed.

(** ** Chunks through an adapter *)

Lemma same_but_refl t h : same_but t h h.
Proof. by unfold same_but. Qed.

Lemma same_but_trans t h1 h2 h3 : same_but t h1 h2 → same_but t h2 h3 → same_but t h1 h3.
Proof.
  intros (Hi & Hr & Hw & Hlen & Ht) (Hi' & Hr' & Hw' & Hlen' & Ht').
  unfold same_but; split_and!; try congruence.
  intros t' Hne. by rewrite Ht', Ht.
Qed.

Lemma same_but_set_transform t tr h : same_but t h (set_transform t tr h).
Proof.
  unfold same_but; simpl. rewrite length_insert. split_and!; try done.
  intros t' Hne. by rewrite list_lookup_insert_ne.
Qed.

Lemma sink_Some w h t tr :
  sink w h = Some (t, tr) →
  ∃ i, w = VWritableStream i ∧ writables h !! i = Some t ∧ transforms h !! t = Some tr.
Proof.
  unfold sink. destruct w; try done.
  destruct (writables h !! w) as [t'|] eqn:Hw; simpl; [|done].
  destruct (transforms h !! t') as [tr'|] eqn:Ht; simpl; [|done].
  intros [= <- <-]. by exists w.
Qed.

(** Chunks written one after the other accumulate, in order, in the
    input of the transform; nothing else changes. *)
Lemma write_all_accumulates w t k chunks : ∀ input h,
  sink w h = Some (t, Transform k input false) →
  ∃ h', write_all w chunks h = (Normal (), h') ∧
    sink w h' = Some (t, Transform k (input ++ concat chunks) false) ∧
    same_but t h h'.
Proof.
  induction chunks as [|chunk chunks IH]; intros input h Hsink; simpl.
  - exists h. rewrite app_nil_r. split_and!; [done | done | apply same_but_refl].
  - destruct (sink_Some _ _ _ _ Hsink) as (i & -> & Hw & Ht).
    pose proof (lookup_lt_Some _ _ _ Ht) as Hlt.
    unfold mbind, M_bind, writable_write. rewrite Hsink; simpl.
    destruct (IH (input ++ chunk)%list
                (set_transform t (Transform k (input ++ chunk)%list false) h))
      as (h' & Hrun & Hsink' & Hsame).
    { by apply sink_set_transform. }
    exists h'. rewrite Hrun. split_and!; [done | by rewrite app_assoc |].
    eapply same_but_trans; [apply same_but_set_transform | done].
Qed.

Lemma pipeThrough_chunks h a r w t k chunks :
  adapter_over h a r w t →
  transforms h !! t = Some (Transform k [] false) →
  ∃ h', pipeThrough chunks a h = (Normal (VReadableStream r), h') ∧
    transforms h' !! t = Some (Transform k (concat chunks) true) ∧
    same_but t h h'.
Proof.
  intros (i & -> & Hprops & Hrd & Hwr) Ht.
  assert (sink (VWritableStream w) h = Some (t, Transform k [] false)) as Hsink
    by (unfold sink; rewrite Hwr; simpl; by rewrite Ht).
  destruct (write_all_accumulates _ _ _ chunks _ _ Hsink) as (h1 & Hrun & Hsink1 & Hsame1).
  destruct (sink_Some _ _ _ _ Hsink1) as (? & [= <-] & Hwr1 & Ht1).
  pose proof (lookup_lt_Some _ _ _ Ht1) as Hlt.
  exists (set_transform t (Transform k (concat chunks) true) h1).
  split_and!.
  - unfold pipeThrough, mbind, M_bind, get_property. rewrite Hprops; simpl.
    rewrite Hrun. unfold writable_close. rewrite Hsink1; simpl.
    destruct Hsame1 as (-> & _). by rewrite Hprops.
  - simpl. by rewrite list_lookup_insert_eq.
  - eapply same_but_trans; [done | apply same_but_set_transform].
Qed.

Lemma read_all_ended zlib h r t k input :
  readables h !! r = Some t →
  transforms h !! t = Some (Transform k input true) →
  read_all zlib (VReadableStream r) h = (emitted (zlib_run zlib k input), h).
Proof.
  intros Hr Ht. unfold read_all, source. rewrite Hr; simpl. rewrite Ht; simpl.
  by destruct (zlib_run zlib k input).
Qed.

Lemma adapter_over_same_but h h' a r w t t' :
  same_but t' h h' → adapter_over h a r w t → adapter_over h' a r w t.
Proof.
  intros (Hi & Hr & Hw & _) (i & -> & Hprops & Hrd & Hwr).
  exists i. by rewrite Hi, Hr, Hw.
Qed.

(** X8.  On data the codec accepts, the helpers add nothing and take
    nothing away: [compress] with "deflate", "deflate-raw" or "gzip"
    returns exactly the bytes zlib's Deflate, DeflateRaw or Gzip transform
    emits for the data, and [decompress] exactly the bytes Inflate,
    InflateRaw or Gunzip emits. *)
Theorem helpers_return_what_the_codec_emits zlib data out h :
  (zlib_run zlib Deflate data = Normal out →
   (compress zlib data (VString "deflate") h).1 = Normal (Some out)) ∧
  (zlib_run zlib DeflateRaw data = Normal out →
   (compress zlib data (VString "deflate-raw") h).1 = Normal (Some out)) ∧
  (zlib_run zlib Gzip data = Normal out →
   (compress zlib data (VString "gzip") h).1 = Normal (Some out)) ∧
  (zlib_run zlib Inflate data = Normal out →
   (decompress zlib data (VString "deflate") h).1 = Normal (Some out)) ∧
  (zlib_run zlib InflateRaw data = Normal out →
   (decompress zlib data (VString "deflate-raw") h).1 = Normal (Some out)) ∧
  (zlib_run zlib Gunzip data = Normal out →
   (decompress zlib data (VString "gzip") h).1 = Normal (Some out)).
Proof.
  assert (∀ f, f ∈ CompressionFormat → ∀ enc dec,
            Get COMPRESSION_FORMATS f = Some (Factory enc) →
            Get DECOMPRESSION_FORMATS f = Some (Factory dec) →
            (compress zlib data (VString f) h).1 = emitted (zlib_run zlib enc data) ∧
            (decompress zlib data (VString f) h).1 = emitted (zlib_run zlib dec data)) as Hboth.
  { intros f Hf enc dec Henc Hdec.
    destruct (compress_spec zlib f data h Hf) as (enc' & h1 & Henc' & ->).
    destruct (decompress_spec zlib f data h Hf) as (dec' & h2 & Hdec' & ->).
    simpl. split; congruence. }
  destruct (Hboth "deflate") with (enc := Deflate) (dec := Inflate) as [-> ->];
    [apply (bool_decide_unpack _); reflexivity | done | done |].
  destruct (Hboth "deflate-raw") with (enc := DeflateRaw) (dec := InflateRaw) as [-> ->];
    [apply (bool_decide_unpack _); reflexivity | done | done |].
  destruct (Hboth "gzip") with (enc := Gzip) (dec := Gunzip) as [-> ->];
    [apply (bool_decide_unpack _); reflexivity | done | done |].
  split_and!; by intros ->.
Qed.

(** X9.  Two adapters do not interfere.  Construct one, construct a
    second (any classes, any of the three formats), pipe chunks through the
    first and then through the second: each readable reports what its own
    codec makes of its own input, unaffected by the other. *)
Theorem adapters_are_independent zlib c1 c2 f1 f2 in1 in2 h :
  f1 ∈ CompressionFormat →
  f2 ∈ CompressionFormat →
  ∃ k1 k2 a1 a2 r1 r2 h1 h2 h3 h4,
    Get (table_of c1) f1 = Some (Factory k1) ∧
    Get (table_of c2) f2 = Some (Factory k2) ∧
    construct c1 (VString f1) h = (Normal a1, h1) ∧
    construct c2 (VString f2) h1 = (Normal a2, h2) ∧
    pipeThrough in1 a1 h2 = (Normal r1, h3) ∧
    pipeThrough in2 a2 h3 = (Normal r2, h4) ∧
    read_all zlib r1 h4 = (emitted (zlib_run zlib k1 (concat in1)), h4) ∧
    read_all zlib r2 h4 = (emitted (zlib_run zlib k2 (concat in2)), h4).
Proof.
  intros Hf1 Hf2.
  destruct (construct_valid_adapter c1 f1 h Hf1) as (k1 & a1 & h1 & Hget1 & Hc1 & Ha1 & Htr1).
  destruct (construct_valid_adapter c2 f2 h1 Hf2) as (k2 & a2 & h2 & Hget2 & Hc2 & Ha2 & Htr2).
  set (t1 := length (transforms h)) in *. set (t2 := length (transforms h1)) in *.
  assert (t1 < t2)%nat as Hlt by (unfold t2; rewrite Htr1, length_app; simpl; lia).
  pose proof (grows_construct c2 (VString f2) h1) as Hext. rewrite Hc2 in Hext. simpl in Hext.
  pose proof (adapter_over_extends _ _ _ _ _ _ Hext Ha1) as Ha1'.
  assert (transforms h2 !! t1 = Some (Transform k1 [] false)) as Ht1.
  { rewrite Htr2, lookup_app_l by done. rewrite Htr1. by apply list_lookup_middle. }
  assert (transforms h2 !! t2 = Some (Transform k2 [] false)) as Ht2
    by (rewrite Htr2; by apply list_lookup_middle).
  destruct (pipeThrough_chunks h2 a1 _ _ _ k1 in1 Ha1' Ht1) as (h3 & Hp1 & Hd1 & Hs1).
  pose proof (adapter_over_same_but _ _ _ _ _ _ _ Hs1 Ha2) as Ha2'.
  assert (transforms h3 !! t2 = Some (Transform k2 [] false)) as Ht2'.
  { destruct Hs1 as (_ & _ & _ & _ & Hrest). rewrite Hrest by lia. done. }
  destruct (pipeThrough_chunks h3 a2 _ _ _ k2 in2 Ha2' Ht2') as (h4 & Hp2 & Hd2 & Hs2).
  assert (transforms h4 !! t1 = Some (Transform k1 (concat in1) true)) as Hd1'.
  { destruct Hs2 as (_ & _ & _ & _ & Hrest). rewrite Hrest by lia. done. }
  pose proof (adapter_over_same_but _ _ _ _ _ _ _ Hs2
                (adapter_over_same_but _ _ _ _ _ _ _ Hs1 Ha1')) as (? & _ & _ & Hr1 & _).
  pose proof (adapter_over_same_but _ _ _ _ _ _ _ Hs2 Ha2') as (? & _ & _ & Hr2 & _).
  eexists k1, k2, a1, a2, _, _, h1, h2, h3, h4.
  split_and!; [done..| |].
  - by apply (read_all_ended zlib h4 _ t1 k1).
  - by apply (read_all_ended zlib h4 _ t2 k2).
Qed.

Lemma adapters_are_independent_witness :
  "gzip" ∈ CompressionFormat ∧
  "deflate" ∈ CompressionFormat ∧
  ∃ k1 k2 a1 a2 r1 r2 h1 h2 h3 h4,
    Get (table_of Compression) "gzip" = Some (Factory k1) ∧
    Get (table_of Decompression) "deflate" = Some (Factory k2) ∧
    construct Compression (VString "gzip") empty_heap = (Normal a1, h1) ∧
    construct Decompression (VString "deflate") h1 = (Normal a2, h2) ∧
    pipeThrough [[Byte.x48]; [Byte.x69]] a1 h2 = (Normal r1, h3) ∧
    pipeThrough [[Byte.x78; Byte.x9c; Byte.x21]] a2 h3 = (Normal r2, h4) ∧
    read_all stored_codec r1 h4 =
      (emitted (zlib_run stored_codec k1 (concat [[Byte.x48]; [Byte.x69]])), h4) ∧
    read_all stored_codec r2 h4 =
      (emitted (zlib_run stored_codec k2 (concat [[Byte.x78; Byte.x9c; Byte.x21]])), h4).
Proof.
  assert ("gzip" ∈ CompressionFormat) as Hf1 by (apply (bool_decide_unpack _); reflexivity).
  assert ("deflate" ∈ CompressionFormat) as Hf2 by (apply (bool_decide_unpack _); reflexivity).
  split; [exact Hf1|]. split; [exact Hf2|].
  exact (adapters_are_independent stored_codec Compression Decompression "gzip" "deflate"
           [[Byte.x48]; [Byte.x69]] [[Byte.x78; Byte.x9c; Byte.x21]] empty_heap Hf1 Hf2).
Defined.

(** ** Joining the chunks read *)

#[local] Open Scope list_scope.

Lemma total_length_from n (chunks : list (list Byte.byte)) :
  foldl (λ sum c, sum + length c)%nat n chunks = (n + length (concat chunks))%nat.
Proof.
  revert n. induction chunks as [|chunk chunks IH]; intros n; simpl.
  - lia.
  - rewrite IH, length_app. lia.
Qed.

Lemma Uint8Array_set_at_end filled chunk rest :
  (length chunk ≤ length rest)%nat →
  Uint8Array_set (filled ++ rest) chunk (length filled) =
    Normal ((filled ++ chunk) ++ drop (length chunk) rest).
Proof.
  intros Hlen. unfold Uint8Array_set.
  rewrite decide_True by (rewrite length_app; lia).
  f_equal. rewrite <-(Nat.add_0_r (length filled)), list_inserts_app_r.
  rewrite <-(take_drop (length chunk) rest) at 1.
  rewrite list_inserts_0_r by (rewrite length_take; lia).
  by rewrite app_assoc.
Qed.

(** The loop invariant: [pos] is the length of what has been copied, and
    what is left of the array is as long as what is left to copy. *)
Lemma copy_chunks_fills chunks : ∀ filled rest,
  length rest = length (concat chunks) →
  copy_chunks chunks (filled ++ rest) (length filled) = Normal (filled ++ concat chunks).
Proof.
  induction chunks as [|chunk chunks IH]; intros filled rest Hlen; simpl in *.
  - by apply nil_length_inv in Hlen as ->.
  - rewrite length_app in Hlen.
    rewrite Uint8Array_set_at_end by lia. simpl.
    rewrite <-length_app, IH by (rewrite length_drop; lia).
    by rewrite app_assoc.
Qed.

(** X10.  The joining code at the end of the test helpers returns the
    chunks concatenated in the order they were read, for any number and
    sizes of chunks (none, or empty ones, included): the array it allocates
    has exactly the length needed and no [set] is ever out of bounds. *)
Theorem join_chunks_is_concat chunks :
  total_length chunks = length (concat chunks) ∧
  join_chunks chunks = Normal (concat chunks).
Proof.
  assert (total_length chunks = length (concat chunks)) as Htotal
    by (unfold total_length; by rewrite total_length_from).
  split; [done|].
  unfold join_chunks, Uint8Array_new. rewrite Htotal.
  apply (copy_chunks_fills chunks []). by rewrite length_replicate.
Qed.

(** ** Loading the module on any host *)

Lemma register_other name c g g' other :
  register name c g = Normal g' → other ≠ name → g' !! other = g !! other.
Proof.
  unfold register, defineProperty.
  repeat (case_match; try done); intros [= <-] Hne; by rewrite ?lookup_insert_ne.
Qed.

Lemma register_defines name c g g' :
  register name c g = Normal g' →
  ∃ p, g' !! name = Some p ∧ p_value p ≠ VUndefined.
Proof.
  unfold register. case_bool_decide as Hty.
  - unfold defineProperty.
    assert (∀ g0 : gmap string property, Normal (<[name := installed c]> g) = Normal g0 →
              ∃ p, g0 !! name = Some p ∧ p_value p ≠ VUndefined) as Hins.
    { intros g0 [= <-]. exists (installed c). by rewrite lookup_insert_eq. }
    repeat (case_match; try done); auto.
  - intros [= <-]. unfold global_get in Hty.
    destruct (g !! name) as [p|]; simpl in Hty; [|done].
    exists p. split; [done|]. intros Hu. apply Hty. by rewrite Hu.
Qed.




(** X12.  Whenever loading the module completes, both global names are
    defined afterwards: each holds a value other than [undefined] (the
    host's own, or the module's class).  This is what the tests "works
    globally" check. *)
Theorem module_load_defines_both g g' :
  module_load g = Normal g' →
  typeof (global_get g' "CompressionStream") ≠ "undefined" ∧
  typeof (global_get g' "DecompressionStream") ≠ "undefined".
Proof.
  rewrite module_load_unfold. unfold mbind, completion_bind.
  destruct (register "CompressionStream" Compression g) as [g1|] eqn:H1; [|done].
  intros H2.
  destruct (register_defines _ _ _ _ H1) as (p1 & Hp1 & Hd1).
  destruct (register_defines _ _ _ _ H2) as (p2 & Hp2 & Hd2).
  rewrite <-(register_other _ _ _ _ "CompressionStream" H2) in Hp1 by done.
  unfold global_get. rewrite Hp1, Hp2; simpl.
  by rewrite !typeof_undefined.
Qed.

Lemma module_load_defines_both_witness :
  module_load half_native_host =
    Normal (<["CompressionStream" := installed Compression]> half_native_host) ∧
  typeof (global_get (<["CompressionStream" := installed Compression]> half_native_host)
            "CompressionStream") ≠ "undefined" ∧
  typeof (global_get (<["CompressionStream" := installed Compression]> half_native_host)
            "DecompressionStream") ≠ "undefined".
Proof.
  assert (module_load half_native_host =
    Normal (<["CompressionStream" := installed Compression]> half_native_host)) as Hload
    by reflexivity.
  split; [exact Hload|].
  exact (module_load_defines_both half_native_host _ Hload).
Defined.


Lemma module_load_idempotent_witness :
  module_load half_native_host =
    Normal (<["CompressionStream" := installed Compression]> half_native_host) ∧
  module_load (<["CompressionStream" := installed Compression]> half_native_host) =
    Normal (<["CompressionStream" := installed Compression]> half_native_host).
Proof.
  assert (module_load half_native_host =
    Normal (<["CompressionStream" := installed Compression]> half_native_host)) as Hload
    by reflexivity.
  split; [exact Hload|].
  exact (module_load_idempotent half_native_host _ Hload).
Defined.
